(** * The taplo plugin for Pants: TOML targets, tailoring and formatting

    A shallow embedding of [pants-plugins/taplo/toml_sources.py] and
    [pants-plugins/taplo/taplo_fmt.py], and the properties of the rules they
    define.

    Conventions.
    - A Python [str] is a [string]; one [ascii] stands for one character, so
      the development covers paths whose characters have code points below
      256.
    - A Python [set] is a duplicate-free list; the order in which Python
      iterates over a set is unspecified, and the theorems that depend on it
      quantify over every enumeration.
    - A [dict] is an association list in insertion order.
    - A call that can raise returns a [result]. *)

From Stdlib Require Import Ascii String.
From stdpp Require Import base decidable option list sorting lexico strings pretty.

(** ** Exceptions *)

(** The Python exceptions of the calls below. [Unmodelled] is none of them:
    it marks the inputs on which a model of a library function gives no
    answer. *)
Inductive exn : Type :=
  | AssertionError
  | TypeError
  | KeyError (key : string)
  | IndexError
  | ValueError
  | Unmodelled.

Inductive result (A : Type) : Type :=
  | Ok (a : A)
  | Raise (e : exn).
Arguments Ok {A} a.
Arguments Raise {A} e.

Definition rbind {A B} (m : result A) (k : A → result B) : result B :=
  match m with
  | Ok a => k a
  | Raise e => Raise e
  end.

Notation "x ←! m ; k" := (rbind m (λ x, k))
  (at level 100, m at next level, right associativity, only parsing).

Fixpoint rmapM {A B} (f : A → result B) (l : list A) : result (list B) :=
  match l with
  | [] => Ok []
  | x :: l' => y ←! f x; ys ←! rmapM f l'; Ok (y :: ys)
  end.

(** ** Python strings *)

Module Str.

(** [for c in s]: the characters of [s], each a string of length one. *)
Fixpoint iter (s : string) : list string :=
  match s with
  | "" => []
  | String c s' => String c "" :: iter s'
  end.

(** The code points of [s]; [str.__lt__] compares them lexicographically. *)
Fixpoint codes (s : string) : list nat :=
  match s with
  | "" => []
  | String c s' => nat_of_ascii c :: codes s'
  end.

(** The two parts of [s] around the last occurrence of [c]
    ([s[:i]] and [s[i+1:]] for [i = s.rfind(c)]), [None] when [c] does not
    occur. *)
Fixpoint rpartition (c : ascii) (s : string) : option (string * string) :=
  match s with
  | "" => None
  | String a s' =>
      match rpartition c s' with
      | Some (h, t) => Some (String a h, t)
      | None => if Ascii.eqb a c then Some ("", s') else None
      end
  end.

(** [s.rstrip(c)] for a single character [c]. *)
Fixpoint rstrip (c : ascii) (s : string) : string :=
  match s with
  | "" => ""
  | String a s' =>
      match rstrip c s' with
      | "" => if Ascii.eqb a c then "" else String a ""
      | r => String a r
      end
  end.

(** [s == c * len(s)]. *)
Fixpoint all_eq (c : ascii) (s : string) : bool :=
  match s with
  | "" => true
  | String a s' => Ascii.eqb a c && all_eq c s'
  end.

Definition is_empty (s : string) : bool :=
  match s with "" => true | _ => false end.

(** [s.startswith(p)]. *)
Fixpoint startswith (p s : string) : bool :=
  match p, s with
  | "", _ => true
  | String a p', String b s' => Ascii.eqb a b && startswith p' s'
  | String _ _, "" => false
  end.

(** [s.endswith(p)]. *)
Fixpoint endswith (p s : string) : bool :=
  String.eqb s p ||
  match s with
  | "" => false
  | String _ s' => endswith p s'
  end.

(** [s.removesuffix(p)]. *)
Fixpoint removesuffix (p s : string) : string :=
  if String.eqb s p then ""
  else match s with
       | "" => ""
       | String a s' => String a (removesuffix p s')
       end.

(** [needle in hay]. *)
Fixpoint contains (needle hay : string) : bool :=
  startswith needle hay ||
  match hay with
  | "" => false
  | String _ hay' => contains needle hay'
  end.

(** [s.rsplit(c, 1)]. *)
Definition rsplit1 (c : ascii) (s : string) : list string :=
  match rpartition c s with
  | Some (h, t) => [h; t]
  | None => [s]
  end.

End Str.

(** [l[-1]] of a non-empty list; the callers below only index the result of
    [rsplit], which is never empty. *)
Definition last_item (l : list string) : string := List.last l "".

(** ** [os.path] (posixpath) *)

Module os_path.

Definition sep : ascii := "/"%char.

(** [os.path.split(p)]: head and tail around the last slash; trailing
    slashes are stripped from the head unless it consists of slashes only. *)
Definition split (p : string) : string * string :=
  match Str.rpartition sep p with
  | None => ("", p)
  | Some (h, tail) =>
      let head := h +:+ String sep "" in
      (if Str.all_eq sep head then head else Str.rstrip sep head, tail)
  end.

(** [os.path.basename(p)]. *)
Definition basename (p : string) : string :=
  match Str.rpartition sep p with
  | None => p
  | Some (_, tail) => tail
  end.

(** [os.path.join(a, b)]. *)
Definition join (a b : string) : string :=
  if Str.startswith "/" b then b
  else if Str.is_empty a || Str.endswith "/" a then a +:+ b
  else a +:+ "/" +:+ b.

End os_path.

(** ** Comparison of Python values

    [lexico] is Python's [<]: code-point order on strings, [False < True] on
    booleans, and the lexicographic order on tuples and lists. *)

Global Instance codes_inj : Inj (=) (=) Str.codes.
Proof.
  intros s. induction s as [|a s IH]; intros [|b t] E; simpl in E; try done.
  injection E as Hc Hs. f_equal; [|by apply IH].
  rewrite <-(ascii_nat_embedding a), <-(ascii_nat_embedding b). by rewrite Hc.
Qed.

Section preimage_order.
Context {A B : Type} `{Lexico B} (key : A → B).
Context `{!Inj (=) (=) key}.

Definition preimage_lexico : Lexico A := λ x y, lexico (key x) (key y).

Local Instance preimage_lexico_po `{!StrictOrder (@lexico B _)} :
  StrictOrder preimage_lexico.
Proof.
  split.
  - intros x. apply (irreflexivity lexico (key x)).
  - intros x y z. unfold preimage_lexico. apply transitivity.
Qed.

Definition preimage_lexico_trichotomy `{!TrichotomyT (@lexico B _)} :
  TrichotomyT preimage_lexico := λ x y,
  match trichotomyT lexico (key x) (key y) with
  | inleft (left H) => inleft (left H)
  | inleft (right H) => inleft (right (inj key x y H))
  | inright H => inright H
  end.
End preimage_order.

Global Instance string_lexico : Lexico string := preimage_lexico Str.codes.
Global Instance string_lexico_po : StrictOrder (@lexico string _).
Proof. apply preimage_lexico_po, _. Qed.
Global Instance string_lexico_trichotomy : TrichotomyT (@lexico string _).
Proof. apply preimage_lexico_trichotomy; [apply codes_inj | apply _]. Defined.

(** [x <= y], the order [sorted] arranges its result in. *)
Definition py_le {A} `{Lexico A} : relation A := λ x y, lexico x y ∨ x = y.

Section py_le.
Context {A : Type} `{Lexico A}.
Context `{!StrictOrder (@lexico A _), !TrichotomyT (@lexico A _)}.

Global Instance py_le_dec : RelDecision (@py_le A _) := λ x y,
  match trichotomyT lexico x y with
  | inleft (left H) => left (or_introl H)
  | inleft (right H) => left (or_intror H)
  | inright H => right (λ H',
      match H' with
      | or_introl Hl => strict_anti_symm _ _ Hl H
      | or_intror He => irreflexive_eq (R:=lexico) _ _ (eq_sym He) H
      end)
  end.

Global Instance py_le_refl : Reflexive (@py_le A _).
Proof. by right. Qed.
Global Instance py_le_trans : Transitive (@py_le A _).
Proof.
  intros x y z [Hxy| ->] [Hyz| ->]; [left; by trans y|by left..|by right].
Qed.
Global Instance py_le_total : Total (@py_le A _).
Proof.
  intros x y. destruct (trichotomyT lexico x y) as [[?|?]|?].
  - left; by left.
  - left; by right.
  - right; by left.
Qed.
Global Instance py_le_anti_symm : AntiSymm (=) (@py_le A _).
Proof.
  intros x y [Hxy|?] [Hyx|?]; try done.
  destruct (strict_anti_symm _ _ Hxy Hyx).
Qed.

(** [sorted(l)]. *)
Definition sorted (l : list A) : list A := merge_sort py_le l.

End py_le.

(** ** Python sets and ordered sets

    [oset_add s x] is [s.add(x)] on a set that remembers insertion order (a
    [FrozenOrderedSet], or the keys of a [dict]); [oset_of_list] builds such a
    set from an iterable. For a plain [set] the list is one enumeration of
    its elements. *)

Section oset.
Context {A : Type} `{EqDecision A}.

Definition oset_add (s : list A) (x : A) : list A :=
  if decide (x ∈ s) then s else s ++ [x].

Definition oset_of_list (l : list A) : list A := foldl oset_add [] l.

(** [s1 - s2]. *)
Definition oset_difference (s1 s2 : list A) : list A := list_difference s1 s2.

End oset.

(** ** The parts of the Pants engine the plugin is written against *)

(** *** Fields and target types ([pants.engine.target]) *)

(** The base class a field class derives from, as far as the rules below
    tell them apart with [issubclass]. *)
Inductive FieldBase : Type :=
  | StringSequenceField
  | StringField
  | BoolField
  | OptionalSingleSourceField
  | MultipleSourcesField
  | Dependencies
  | OverridesField.

Inductive FieldValue : Type :=
  | VNone
  | VBool (b : bool)
  | VStr (s : string)
  | VTuple (l : list string).

Record Field : Type := {
  field_alias : string;
  field_base : FieldBase;
  field_default : FieldValue;
  uses_source_roots : bool;
  expected_file_extensions : list string;
}.

Global Instance FieldBase_eq_dec : EqDecision FieldBase.
Proof. solve_decision. Defined.
Global Instance FieldValue_eq_dec : EqDecision FieldValue.
Proof. solve_decision. Defined.
Global Instance Field_eq_dec : EqDecision Field.
Proof. solve_decision. Defined.

Definition Tags : Field :=
  {| field_alias := "tags"; field_base := StringSequenceField;
     field_default := VNone; uses_source_roots := false;
     expected_file_extensions := [] |}.

Definition DescriptionField : Field :=
  {| field_alias := "description"; field_base := StringField;
     field_default := VNone; uses_source_roots := false;
     expected_file_extensions := [] |}.

Definition COMMON_TARGET_FIELDS : list Field := [Tags; DescriptionField].

Record TargetType : Type := {
  alias : string;
  core_fields : list Field;
}.

(** A [TargetFilesGenerator] subclass: the generator's own target type and
    what it hands to the targets it generates. *)
Record TargetFilesGenerator : Type := {
  generator : TargetType;
  generated_target_cls : TargetType;
  copied_fields : list Field;
  moved_fields : list Field;
}.

(** A target: its type, the plugin fields registered on that type, and the
    values its BUILD file entry gives explicitly. *)
Record Target : Type := {
  target_type : TargetType;
  plugin_fields : list Field;
  field_values : list (string * FieldValue);
}.

Fixpoint assoc_get {V} (k : string) (d : list (string * V)) : option V :=
  match d with
  | [] => None
  | (k', v) :: d' => if decide (k = k') then Some v else assoc_get k d'
  end.

(** [tgt.get(field).value]: the value given for the field, and the field's
    default when the target gives none (or does not have the field). *)
Definition Target_get (tgt : Target) (f : Field) : FieldValue :=
  match assoc_get (field_alias f) (field_values tgt) with
  | Some VNone | None => field_default f
  | Some v => v
  end.

(** [default_sources_for_target_type]: the default of the first source field
    among the core fields. *)
Fixpoint default_sources_of_fields (fields : list Field) : list string :=
  match fields with
  | [] => []
  | f :: fields' =>
      match field_base f with
      | OptionalSingleSourceField =>
          match field_default f with
          | VStr s => if Str.is_empty s then [] else [s]
          | _ => []
          end
      | MultipleSourcesField =>
          match field_default f with
          | VTuple l => l
          | _ => []
          end
      | _ => default_sources_of_fields fields'
      end
  end.

Definition default_sources_for_target_type (tgt_type : TargetType) : list string :=
  default_sources_of_fields (core_fields tgt_type).

(** *** Putative targets ([pants.core.goals.tailor]) *)

(** The fields of the [PutativeTarget] dataclass, in declaration order. The
    plugin never passes [kwargs] or [comments], which are therefore the empty
    [FrozenDict] and the empty tuple in every value built here and are left
    out. *)
Record PutativeTarget : Type := {
  path : string;
  name : string;
  type_alias : string;
  triggering_sources : list string;
  owned_sources : list string;
  addressable : bool;
}.

Global Instance PutativeTarget_eq_dec : EqDecision PutativeTarget.
Proof. solve_decision. Defined.

(** [dataclass(order=True)] compares the tuples of fields. *)
Definition PutativeTarget_key (pt : PutativeTarget) :
    string * string * string * list string * list string * bool :=
  (path pt, name pt, type_alias pt, triggering_sources pt, owned_sources pt,
   addressable pt).

Global Instance PutativeTarget_key_inj : Inj (=) (=) PutativeTarget_key.
Proof. intros [] [] E. unfold PutativeTarget_key in E. by simplify_eq/=. Qed.

Global Instance PutativeTarget_lexico : Lexico PutativeTarget :=
  preimage_lexico PutativeTarget_key.
Global Instance PutativeTarget_lexico_po : StrictOrder (@lexico PutativeTarget _).
Proof. apply preimage_lexico_po, _. Qed.
Global Instance PutativeTarget_lexico_trichotomy :
  TrichotomyT (@lexico PutativeTarget _).
Proof.
  apply preimage_lexico_trichotomy; [apply PutativeTarget_key_inj | apply _].
Defined.

(** [PutativeTarget.for_target_type(target_type, path, name,
    triggering_sources)], with [kwargs] and [comments] at their defaults. *)
Definition for_target_type (tgt_type : TargetType) (path : string)
    (name : option string) (triggering_sources : list string) :
    result PutativeTarget :=
  let name := match name with Some n => n | None => os_path.basename path end in
  let default_sources := default_sources_for_target_type tgt_type in
  match triggering_sources, default_sources with
  | _ :: _, [] => Raise AssertionError
  | _, _ =>
      Ok {| path := path; name := name; type_alias := alias tgt_type;
            triggering_sources := triggering_sources;
            owned_sources := default_sources; addressable := true |}
  end.

(** [PutativeTargets(pts)], a [DeduplicatedCollection] with
    [sort_input = True]: the input is sorted, then put in a
    [FrozenOrderedSet]. *)
Definition PutativeTargets (pts : list PutativeTarget) : list PutativeTarget :=
  oset_of_list (sorted pts).

(** *** [pants.util.dirutil.group_by_dir] *)

(** [dirs[dirname].add(filename)] on a [defaultdict(set)]. *)
Fixpoint defaultdict_add (dirs : list (string * list string))
    (dirname filename : string) : list (string * list string) :=
  match dirs with
  | [] => [(dirname, oset_add [] filename)]
  | (d, files) :: dirs' =>
      if decide (d = dirname) then (d, oset_add files filename) :: dirs'
      else (d, files) :: defaultdict_add dirs' dirname filename
  end.

(** [group_by_dir(paths)]: for every element of the iterable, split it and
    record the file name under its directory. *)
Definition group_by_dir (paths : list string) : list (string * list string) :=
  foldl (λ dirs path,
           let '(dirname, filename) := os_path.split path in
           defaultdict_add dirs dirname filename)
        [] paths.

(** ** [toml_sources.py] *)

Module toml_sources.

(** The [toml-setup] subsystem; [tailor] is a [BoolOption]. *)
Record TomlSetup : Type := { tailor : bool }.

Definition TomlSetup_default : TomlSetup := {| tailor := true |}.

(** [FileSourceField] is a required single-source field that does not use
    source roots. *)
Definition TomlSourceField : Field :=
  {| field_alias := "source"; field_base := OptionalSingleSourceField;
     field_default := VNone; uses_source_roots := false;
     expected_file_extensions := [".toml"] |}.

Definition TomlDependenciesField : Field :=
  {| field_alias := "dependencies"; field_base := Dependencies;
     field_default := VNone; uses_source_roots := false;
     expected_file_extensions := [] |}.

Definition TomlSourceTarget : TargetType :=
  {| alias := "toml_source";
     core_fields :=
       COMMON_TARGET_FIELDS ++ [TomlDependenciesField; TomlSourceField] |}.

Definition TomlSourcesGeneratingSourcesField : Field :=
  {| field_alias := "sources"; field_base := MultipleSourcesField;
     field_default := VTuple ["*.toml"]; uses_source_roots := false;
     expected_file_extensions := [".toml"] |}.

Definition TomlSourcesOverridesField : Field :=
  {| field_alias := "overrides"; field_base := OverridesField;
     field_default := VNone; uses_source_roots := false;
     expected_file_extensions := [] |}.

Definition TomlSourcesGeneratorTarget : TargetFilesGenerator :=
  {| generator :=
       {| alias := "toml_sources";
          core_fields :=
            COMMON_TARGET_FIELDS ++
            [TomlSourcesGeneratingSourcesField; TomlSourcesOverridesField] |};
     generated_target_cls := TomlSourceTarget;
     copied_fields := COMMON_TARGET_FIELDS;
     moved_fields := [TomlDependenciesField] |}.

(** The body of the outer loop of [find_putative_targets] for one element
    [paths] of [unowned_toml_files]: [group_by_dir] is handed the string
    [paths] itself and so iterates over its characters. *)
Definition putative_targets_of (paths : string) : result (list PutativeTarget) :=
  rmapM (λ '(dirname, filenames),
           for_target_type (generator TomlSourcesGeneratorTarget)
             dirname None (sorted filenames))
        (group_by_dir (Str.iter paths)).

(** The two loops, over one enumeration of [unowned_toml_files]. *)
Definition collect (unowned_toml_files : list string) :
    result (list PutativeTarget) :=
  ptss ←! rmapM putative_targets_of unowned_toml_files;
  Ok (concat ptss).

(** The rule after the set difference is taken, for one order in which the
    set [unowned_toml_files] is iterated. *)
Definition find_putative_targets_over (unowned_toml_files : list string) :
    result (list PutativeTarget) :=
  pts ←! collect unowned_toml_files;
  Ok (PutativeTargets pts).

(** [find_putative_targets]. [all_toml_files] is [all_toml_files.files], the
    answer of the engine to [req.path_globs("*.toml")]; [all_owned_sources]
    is the collection of owned paths. *)
Definition find_putative_targets (toml_setup : TomlSetup)
    (all_toml_files all_owned_sources : list string) :
    result (list PutativeTarget) :=
  if negb (tailor toml_setup) then Ok (PutativeTargets [])
  else
    let unowned_toml_files :=
      oset_difference (oset_of_list all_toml_files)
                      (oset_of_list all_owned_sources) in
    find_putative_targets_over unowned_toml_files.

End toml_sources.

(** ** [str.format] with keyword arguments only

    [{{] and [}}] are the escapes and an unbalanced brace raises
    [ValueError]. A replacement field that is a plain name is replaced by the
    keyword argument of that name and raises [KeyError] when there is none;
    a field that is empty or a number asks for a positional argument and
    raises [IndexError], as none is passed. Fields with a conversion, a
    format specification, or an attribute or index ([!], [:], [.], [[], or a
    nested [{]) are not evaluated: the model answers [Unmodelled]. *)

Definition is_digit (c : ascii) : bool :=
  (48 <=? nat_of_ascii c) && (nat_of_ascii c <=? 57).

Fixpoint all_digits (s : string) : bool :=
  match s with
  | "" => true
  | String c s' => is_digit c && all_digits s'
  end.

(** Whether a character of [chars] occurs in [s]. *)
Fixpoint has_any (chars s : string) : bool :=
  match s with
  | "" => false
  | String c s' => Str.contains (String c "") chars || has_any chars s'
  end.

(** The value of the replacement field [fname]. *)
Definition field_value (kwargs : list (string * string)) (fname : string) :
    result string :=
  if has_any "{!:.[" fname then Raise Unmodelled
  else if all_digits fname then Raise IndexError
  else match assoc_get fname kwargs with
       | Some v => Ok v
       | None => Raise (KeyError fname)
       end.

Fixpoint format_go (kwargs : list (string * string)) (field : option string)
    (s : string) : result string :=
  match s with
  | "" => match field with None => Ok "" | Some _ => Raise ValueError end
  | String c s' =>
      match field with
      | Some fname =>
          if Ascii.eqb c "}" then
            v ←! field_value kwargs fname;
            r ←! format_go kwargs None s';
            Ok (v +:+ r)
          else format_go kwargs (Some (fname +:+ String c "")) s'
      | None =>
          if Ascii.eqb c "{" then
            match s' with
            | String "{" s'' => r ←! format_go kwargs None s''; Ok (String "{" r)
            | _ => format_go kwargs (Some "") s'
            end
          else if Ascii.eqb c "}" then
            match s' with
            | String "}" s'' => r ←! format_go kwargs None s''; Ok (String "}" r)
            | _ => Raise ValueError
            end
          else r ←! format_go kwargs None s'; Ok (String c r)
      end
  end.

Definition format (template : string) (kwargs : list (string * string)) :
  result string := format_go kwargs None template.

(** ** [taplo_fmt.py] *)

Module taplo_fmt.

(** [pants.engine.platform.Platform] and the [value] of each member. *)
Inductive Platform : Type :=
  | linux_arm64
  | linux_x86_64
  | macos_arm64
  | macos_x86_64.

Definition Platform_value (plat : Platform) : string :=
  match plat with
  | linux_arm64 => "linux_arm64"
  | linux_x86_64 => "linux_x86_64"
  | macos_arm64 => "macos_arm64"
  | macos_x86_64 => "macos_x86_64"
  end.

(** The [taplo] subsystem: the options of [TemplatedExternalTool] that the
    rules read, and the three options the class adds. *)
Record Taplo : Type := {
  version : string;
  url_template : string;
  url_platform_mapping : list (string * string);
  skip : bool;
  args : list string;
  config_discovery : bool;
}.

Definition default_version : string := "0.8.0".
Definition default_known_versions : list string :=
  [ "0.8.0|macos_arm64|79c1691c3c46be981fa0cec930ec9a6d6c4ffd27272d37d1885514ce59bd8ccf|3661689";
    "0.8.0|macos_x86_64|a1917f1b9168cb4f7d579422dcdf9c733028d873963d8fa3a6f499e41719c502|3926263";
    "0.8.0|linux_arm64|a6a94482f125c21090593f94cad23df099c4924f5b9620cda4a8653527c097a1|3995383";
    "0.8.0|linux_x86_64|3703294fac37ca9a9f76308f9f98c3939ccb7588f8972acec68a48d7a10d8ee5|4123593" ].
Definition default_url_template : string :=
  "https://github.com/tamasfe/taplo/releases/download/{version}/taplo-{platform}.gz".
Definition default_url_platform_mapping : list (string * string) :=
  [ ("macos_arm64", "darwin-aarch64");
    ("macos_x86_64", "darwin-x86_64");
    ("linux_arm64", "linux-aarch64");
    ("linux_x86_64", "linux-x86_64") ].

(** The subsystem when no option is set. *)
Definition Taplo_default : Taplo :=
  {| version := default_version;
     url_template := default_url_template;
     url_platform_mapping := default_url_platform_mapping;
     skip := false;
     args := [];
     config_discovery := true |}.

(** [TemplatedExternalTool.generate_url]. *)
Definition generate_url (self : Taplo) (plat : Platform) : result string :=
  let platform :=
    match assoc_get (Platform_value plat) (url_platform_mapping self) with
    | Some p => p
    | None => ""
    end in
  format (url_template self) [("version", version self); ("platform", platform)].

Definition generate_exe (self : Taplo) (plat : Platform) : result string :=
  url ←! generate_url self plat;
  Ok ("./" +:+ Str.removesuffix ".gz" (last_item (Str.rsplit1 "/" url))).

Record ConfigFilesRequest : Type := {
  discovery : bool;
  check_existence : list string;
}.

(** [ConfigFilesRequest(discovery=..., check_existence=...)]: the constructor
    keeps the files to check as a sorted tuple. *)
Definition ConfigFilesRequest_init (discovery : bool)
    (check_existence : list string) : ConfigFilesRequest :=
  {| discovery := discovery; check_existence := sorted check_existence |}.

Definition config_request (self : Taplo) (dirs : list string) :
    ConfigFilesRequest :=
  let candidates :=
    (λ d, os_path.join d ".taplo.toml") <$> ("" :: dirs) in
  let candidates :=
    candidates ++ ((λ d, os_path.join d "taplo.toml") <$> ("" :: dirs)) in
  ConfigFilesRequest_init (config_discovery self) candidates.

(** [pyproject_checker]: the comprehension runs over the set [paths], here
    in the order of first occurrence. *)
Definition pyproject_checker (self : Taplo) (filepaths : list string) :
    list string :=
  let paths := oset_of_list filepaths in
  filter (λ f, Str.contains "pyproject.toml" f = true) paths.

Definition SkipTaploField : Field :=
  {| field_alias := "skip_taplo"; field_base := BoolField;
     field_default := VBool false; uses_source_roots := false;
     expected_file_extensions := [] |}.

(** [TaploFieldSet.opt_out]. A [BoolField] holds a Boolean; the engine
    rejects any other value when the target is built. *)
Definition opt_out (tgt : Target) : bool :=
  match Target_get tgt SkipTaploField with
  | VBool b => b
  | _ => false
  end.

(** [Partitions] of file paths; a partition has its elements and the empty
    metadata. *)
Record Partition : Type := { elements : list string }.

Definition single_partition (elements : list string) : list Partition :=
  [ {| elements := elements |} ].

Definition partition_pyprojects (request_files : list string) (taplo : Taplo) :
    list Partition :=
  if skip taplo then []
  else single_partition (sorted (pyproject_checker taplo request_files)).

(** [pluralize(n, 'file')]. *)
Definition pluralize_file (n : nat) : string :=
  pretty n +:+ " " +:+ (if decide (n = 1) then "file" else "files").

Section processes.
(** Digests are the engine's; the rules only pass them on. *)
Variable Digest : Type.
Variable merge_digests : list Digest → Digest.

Record Snapshot : Type := {
  digest : Digest;
  dirs : list string;
}.

(** A [Batch] of either request type. *)
Record Batch : Type := {
  files : list string;
  snapshot : Snapshot;
}.

Record DownloadedExternalTool : Type := {
  tool_digest : Digest;
  exe : string;
}.

Record Process : Type := {
  argv : list string;
  input_digest : Digest;
  output_files : list string;
  description : string;
}.

(** The [Process] that [taplo_fmt] runs. [downloaded_taplo] and
    [config_digest] are the engine's answers to the two [Get]s. *)
Definition taplo_fmt (request : Batch) (taplo : Taplo)
    (downloaded_taplo : DownloadedExternalTool) (config_digest : Digest) :
    Process :=
  let input_digest :=
    merge_digests
      [digest (snapshot request); tool_digest downloaded_taplo; config_digest] in
  let argv :=
    [exe downloaded_taplo; "fmt"] ++ args taplo ++ files request in
  {| argv := argv;
     input_digest := input_digest;
     output_files := files request;
     description :=
       "Run taplo on " +:+ pluralize_file (length (files request)) +:+ "." |}.

(** The [Process] that [pyproject_toml_fmt] runs. *)
Definition pyproject_toml_fmt (request : Batch) (taplo : Taplo)
    (downloaded_taplo : DownloadedExternalTool) (config_digest : Digest) :
    Process :=
  let input_digest :=
    merge_digests
      [digest (snapshot request); tool_digest downloaded_taplo; config_digest] in
  let argv :=
    [exe downloaded_taplo; "fmt"] ++ args taplo ++ files request in
  {| argv := argv;
     input_digest := input_digest;
     output_files := files request;
     description :=
       "Run taplo on " +:+ pluralize_file (length (files request)) +:+ "." |}.

(** The [ConfigFilesRequest] both rules send. *)
Definition config_files_get (request : Batch) (taplo : Taplo) :
    ConfigFilesRequest :=
  config_request taplo (dirs (snapshot request)).
End processes.

Arguments digest {Digest} _.
Arguments dirs {Digest} _.
Arguments files {Digest} _.
Arguments snapshot {Digest} _.
Arguments tool_digest {Digest} _.
Arguments exe {Digest} _.
Arguments argv {Digest} _.
Arguments input_digest {Digest} _.
Arguments output_files {Digest} _.
Arguments description {Digest} _.
Arguments taplo_fmt {Digest} _ _ _ _ _.
Arguments pyproject_toml_fmt {Digest} _ _ _ _ _.
Arguments config_files_get {Digest} _ _.

(** The plugin fields that [rules()] registers, with the target type each
    is registered on. *)
Definition registered_plugin_fields : list (TargetType * Field) :=
  [ (toml_sources.TomlSourceTarget, SkipTaploField);
    (generator toml_sources.TomlSourcesGeneratorTarget, SkipTaploField) ].

End taplo_fmt.

(** ** The expansion of a generator

    What the declarations [copied_fields], [moved_fields], [default] and
    [uses_source_roots] of [toml_sources.py] mean is decided by the engine,
    when it expands a generator into the targets it generates; that code is
    not part of the plugin. *)

Global Instance TargetType_eq_dec : EqDecision TargetType.
Proof. solve_decision. Defined.

(** Modelled from the spec: the declaration of a generator entity, which the
    engine reads from a BUILD file: where it is declared, the values it gives
    to fields, and the "per-generated-file field overrides ... keyed by
    filename" of section 4.2. *)
Record GeneratorDeclaration : Type := {
  spec_path : string;
  kwargs : list (string * FieldValue);
  overrides : list (string * list (string * FieldValue));
}.

(** The value a declaration gives to the field of alias [a]; none when the
    field is left out or set to [None]. *)
Definition given (kwargs : list (string * FieldValue)) (a : string) :
    option FieldValue :=
  match assoc_get a kwargs with
  | Some VNone | None => None
  | Some v => Some v
  end.

(** The fields among [fields] that the declaration gives a value, with that
    value. *)
Fixpoint template_of (fields : list Field) (kwargs : list (string * FieldValue)) :
    list (string * FieldValue) :=
  match fields with
  | [] => []
  | f :: fields' =>
      match given kwargs (field_alias f) with
      | Some v => (field_alias f, v) :: template_of fields' kwargs
      | None => template_of fields' kwargs
      end
  end.

(** The plugin fields registered on a target type. *)
Definition plugin_fields_of (tt : TargetType) : list Field :=
  (filter (λ e, e.1 = tt) taplo_fmt.registered_plugin_fields).*2.

(** Modelled from the spec: the fields every generated entity starts from,
    the engine "copying shared fields and moving the dependency field onto
    each generated entity" (section 4.2): the moved fields and the copied
    ones, a plugin field registered on the generator being copied. *)
Definition template_fields (g : TargetFilesGenerator)
    (decl : GeneratorDeclaration) : list (string * FieldValue) :=
  template_of (moved_fields g) (kwargs decl)
  ++ template_of (copied_fields g ++ plugin_fields_of (generator g)) (kwargs decl).


Definition overrides_for (decl : GeneratorDeclaration) (name : string) :
    list (string * FieldValue) :=
  default [] (assoc_get name (overrides decl)).

(** Modelled from the spec: the single-file entity generated for the matched
    file [name] (relative to the declaring directory): its source is the
    file, then the overrides for that file, then the template. *)
Definition generated_target (g : TargetFilesGenerator)
    (decl : GeneratorDeclaration) (name : string) : Target :=
  {| target_type := generated_target_cls g;
     plugin_fields := plugin_fields_of (generated_target_cls g);
     field_values :=
       ("source", VStr name) :: overrides_for decl name ++ template_fields g decl |}.

(** Modelled from the spec: the expansion "into one single-file entity per
    matched file" (section 4.2); [names] are the files the glob matched, as
    the engine found them. *)
Definition generate_file_level_targets (g : TargetFilesGenerator)
    (decl : GeneratorDeclaration) (names : list string) : list Target :=
  generated_target g decl <$> names.

(** Modelled from the spec: the globs of a generator, "a glob (default
    [*.toml])": the [sources] given in the declaration, else the default of
    the generator's sources field. *)
Definition sources_globs (g : TargetFilesGenerator)
    (decl : GeneratorDeclaration) : list string :=
  match given (kwargs decl) "sources" with
  | Some (VTuple l) => l
  | _ => default_sources_for_target_type (generator g)
  end.

(** Modelled from the spec: the globs as the engine looks them up, each
    "resolved relative to its declaration location". *)
Definition path_globs (g : TargetFilesGenerator)
    (decl : GeneratorDeclaration) : list string :=
  os_path.join (spec_path decl) <$> sources_globs g decl.

Section redirection.
(** The "include-path redirection rules used for other source kinds": for a
    field that uses source roots the engine addresses a file by the path
    [redirect] gives. *)
Variable redirect : string → string.

End redirection.

(** ** Vocabulary of the statements *)

(** [c] occurs in [s]. *)
Definition char_in (c : ascii) (s : string) : Prop :=
  ∃ pre post, s = pre +:+ String c post.

(** [seg] is what follows the last [c] of [s], all of [s] when there is none. *)
Definition is_final_segment (c : ascii) (s seg : string) : Prop :=
  ¬ char_in c seg ∧ (s = seg ∨ ∃ pre, s = pre +:+ String c seg).

(** [r] is [s] with one trailing [suf] taken off, [s] itself when it does not
    end with [suf]. *)
Definition without_suffix (suf s r : string) : Prop :=
  s = r +:+ suf ∨ ((∀ r', s ≠ r' +:+ suf) ∧ r = s).

(** The file name [f] is recorded under the directory [d] in [dirs]. *)
Definition entry_in (dirs : list (string * list string)) (d f : string) : Prop :=
  ∃ files, (d, files) ∈ dirs ∧ f ∈ files.

(** The proposal for a [toml_sources] target in [dirname], triggered by
    [filenames]. *)
Definition proposal (dirname : string) (filenames : list string) : PutativeTarget :=
  {| path := dirname; name := os_path.basename dirname;
     type_alias := "toml_sources"; triggering_sources := filenames;
     owned_sources := ["*.toml"]; addressable := true |}.

(** Two lists hold the same set of elements. *)
Definition same_set {A} (l k : list A) : Prop := ∀ x, x ∈ l ↔ x ∈ k.

(** What the inner loop of [find_putative_targets] appends for one element
    [paths] of the unowned set. *)
Definition proposals_of (paths : string) : list PutativeTarget :=
  (λ e, proposal e.1 (sorted e.2)) <$> group_by_dir (Str.iter paths).

(** The name the tool's URL platform mapping gives a platform, the empty
    string when it has none. *)
Definition mapped_platform_name (mapping : list (string * string))
    (plat : taplo_fmt.Platform) : string :=
  match assoc_get (taplo_fmt.Platform_value plat) mapping with
  | Some p => p
  | None => ""
  end.

(** The file names of the paths of [paths] that lie in the directory [d], in
    the order of the paths. *)
Definition files_in (d : string) (paths : list string) : list string :=
  (λ p, (os_path.split p).2) <$> filter (λ p, (os_path.split p).1 = d) paths.

(** The characters of [p] other than the slash, in their order. *)
Definition path_characters (p : string) : list string :=
  filter (λ c, c ≠ "/") (Str.iter p).

(** [c] is the path of the file named [n] that lies directly in the
    directory [d]: [n] itself in the root, else [d], a slash unless [d] ends
    with one, and [n]. *)
Definition names_file_in (d n c : string) : Prop :=
  if decide (d = "") then c = n
  else if Str.endswith "/" d then c = d +:+ n
  else c = d +:+ "/" +:+ n.

(** * Properties *)

(** ** Sorting *)

Section sorted_facts.
Context {A : Type} `{Lexico A}.
Context `{!StrictOrder (@lexico A _), !TrichotomyT (@lexico A _)}.
Implicit Types (l k : list A) (x : A).

Lemma sorted_Permutation l : sorted l ≡ₚ l.
Proof. apply merge_sort_Permutation. Qed.

Lemma sorted_StronglySorted l : StronglySorted py_le (sorted l).
Proof. apply StronglySorted_merge_sort; apply _. Qed.

(** The result of [sorted] does not depend on the order of its input. *)
Lemma sorted_unique l1 l2 : l1 ≡ₚ l2 → sorted l1 = sorted l2.
Proof.
  intros E. apply (StronglySorted_unique py_le);
    [apply sorted_StronglySorted..|].
  by rewrite !sorted_Permutation.
Qed.

Lemma elem_of_sorted l x : x ∈ sorted l ↔ x ∈ l.
Proof. by rewrite sorted_Permutation. Qed.

Lemma NoDup_sorted l : NoDup l → NoDup (sorted l).
Proof. by rewrite sorted_Permutation. Qed.

Lemma StronglySorted_sublist (l k : list A) :
  l `sublist_of` k → StronglySorted py_le k → StronglySorted py_le l.
Proof.
  induction 1 as [|x l k Hs IH|x l k Hs IH]; intros Hk.
  - constructor.
  - apply StronglySorted_inv in Hk as [Hk Hx]. constructor; [by apply IH|].
    eapply Forall_forall. intros y Hy.
    eapply (proj1 (Forall_forall _ _) Hx), (elem_of_sublist _ _ _ Hy Hs).
  - apply StronglySorted_inv in Hk as [Hk _]. by apply IH.
Qed.
End sorted_facts.

(** ** Ordered sets *)

Section oset_facts.
Context {A : Type} `{EqDecision A}.
Implicit Types (s l acc : list A) (x y : A).

Lemma elem_of_oset_add s x y : y ∈ oset_add s x ↔ y ∈ s ∨ y = x.
Proof.
  unfold oset_add. case_decide.
  - split; [by left|]. by intros [?| ->].
  - by rewrite elem_of_app, list_elem_of_singleton.
Qed.

Lemma NoDup_oset_add s x : NoDup s → NoDup (oset_add s x).
Proof.
  intros Hs. unfold oset_add. case_decide; [done|].
  apply NoDup_app. split_and!; [done| |apply NoDup_singleton].
  intros y Hy ->%list_elem_of_singleton. done.
Qed.

Lemma elem_of_foldl_oset_add l acc y :
  y ∈ foldl oset_add acc l ↔ y ∈ acc ∨ y ∈ l.
Proof.
  revert acc. induction l as [|x l IH]; intros acc; simpl.
  - rewrite elem_of_nil. tauto.
  - rewrite IH, elem_of_oset_add, elem_of_cons. tauto.
Qed.

Lemma NoDup_foldl_oset_add l acc : NoDup acc → NoDup (foldl oset_add acc l).
Proof.
  revert acc. induction l as [|x l IH]; intros acc Hacc; simpl; [done|].
  by apply IH, NoDup_oset_add.
Qed.

Lemma sublist_foldl_oset_add l acc :
  foldl oset_add acc l `sublist_of` acc ++ l.
Proof.
  revert acc. induction l as [|x l IH]; intros acc; simpl.
  - by rewrite app_nil_r.
  - etrans; [apply IH|]. unfold oset_add. case_decide.
    + apply sublist_app; [done|]. by apply sublist_cons.
    + by rewrite <-app_assoc.
Qed.

Lemma elem_of_oset_of_list l y : y ∈ oset_of_list l ↔ y ∈ l.
Proof.
  unfold oset_of_list. rewrite elem_of_foldl_oset_add, elem_of_nil. tauto.
Qed.

Lemma NoDup_oset_of_list l : NoDup (oset_of_list l).
Proof. apply NoDup_foldl_oset_add, NoDup_nil_2. Qed.

Lemma sublist_oset_of_list l : oset_of_list l `sublist_of` l.
Proof. apply (sublist_foldl_oset_add l []). Qed.

Lemma elem_of_oset_difference s1 s2 y :
  y ∈ oset_difference s1 s2 ↔ y ∈ s1 ∧ y ∉ s2.
Proof. apply list_elem_of_difference. Qed.

Lemma NoDup_oset_difference s1 s2 :
  NoDup s1 → NoDup (oset_difference s1 s2).
Proof. apply NoDup_list_difference. Qed.
End oset_facts.

(** ** The library functions on examples *)

Example split_nested : os_path.split "a/b/c.toml" = ("a/b", "c.toml").
Proof. reflexivity. Qed.
Example split_root_file : os_path.split "c.toml" = ("", "c.toml").
Proof. reflexivity. Qed.
Example split_slash : os_path.split "/" = ("/", "").
Proof. reflexivity. Qed.
Example split_double_slash : os_path.split "a//b" = ("a", "b").
Proof. reflexivity. Qed.
Example join_root : os_path.join "" ".taplo.toml" = ".taplo.toml".
Proof. reflexivity. Qed.
Example join_dir : os_path.join "a/b" "taplo.toml" = "a/b/taplo.toml".
Proof. reflexivity. Qed.
Example removesuffix_gz : Str.removesuffix ".gz" "taplo-x.gz" = "taplo-x".
Proof. reflexivity. Qed.
Example removesuffix_absent : Str.removesuffix ".gz" "taplo-x.gzip" = "taplo-x.gzip".
Proof. reflexivity. Qed.
Example rsplit1_url : Str.rsplit1 "/" "a/b/c" = ["a/b"; "c"].
Proof. reflexivity. Qed.
Example sorted_chars :
  sorted ["a"; "y"; "."; "t"; "o"; "m"; "l"] = ["."; "a"; "l"; "m"; "o"; "t"; "y"].
Proof. vm_compute. reflexivity. Qed.
Example oset_of_list_dups : oset_of_list ["b"; "a"; "b"; "c"; "a"] = ["b"; "a"; "c"].
Proof. vm_compute. reflexivity. Qed.
Example group_by_dir_paths :
  group_by_dir ["a/y.toml"; "b/z.toml"; "a/w.toml"] =
    [("a", ["y.toml"; "w.toml"]); ("b", ["z.toml"])].
Proof. vm_compute. reflexivity. Qed.
Example tailor_one_file :
  toml_sources.find_putative_targets toml_sources.TomlSetup_default
    ["a/y.toml"] [] =
  Ok [ {| path := ""; name := ""; type_alias := "toml_sources";
          triggering_sources := ["."; "a"; "l"; "m"; "o"; "t"; "y"];
          owned_sources := ["*.toml"]; addressable := true |};
       {| path := "/"; name := ""; type_alias := "toml_sources";
          triggering_sources := [""];
          owned_sources := ["*.toml"]; addressable := true |} ].
Proof. vm_compute. reflexivity. Qed.
Example format_url :
  format "d/{version}/taplo-{platform}.gz" [("version", "0.8.0"); ("platform", "x")]
  = Ok "d/0.8.0/taplo-x.gz".
Proof. reflexivity. Qed.
Example format_unknown : format "{arch}" [("version", "0.8.0")] = Raise (KeyError "arch").
Proof. reflexivity. Qed.
Example generate_exe_linux :
  taplo_fmt.generate_exe taplo_fmt.Taplo_default taplo_fmt.linux_x86_64
  = Ok "./taplo-linux-x86_64".
Proof. reflexivity. Qed.
Example partition_example :
  taplo_fmt.partition_pyprojects
    ["b/pyproject.toml"; "a.toml"; "pyproject.toml"; "b/pyproject.toml"]
    taplo_fmt.Taplo_default
  = [ {| taplo_fmt.elements := ["b/pyproject.toml"; "pyproject.toml"] |} ].
Proof. vm_compute. reflexivity. Qed.
Example config_request_example :
  taplo_fmt.check_existence (taplo_fmt.config_request taplo_fmt.Taplo_default ["a"; "a/b"])
  = [".taplo.toml"; "a/.taplo.toml"; "a/b/.taplo.toml";
     "a/b/taplo.toml"; "a/taplo.toml"; "taplo.toml"].
Proof. vm_compute. reflexivity. Qed.
Example format_positional : format "{}" [("version", "0.8.0")] = Raise IndexError.
Proof. reflexivity. Qed.
Example format_conversion :
  format "{version!r}" [("version", "0.8.0")] = Raise Unmodelled.
Proof. reflexivity. Qed.

(** ** Strings *)

Local Arguments String.append !_ _ / : simpl nomatch.

Lemma append_nil_r (s : string) : s +:+ "" = s.
Proof. induction s as [|a s IH]; simpl; congruence. Qed.

Lemma append_assoc (s t u : string) : (s +:+ t) +:+ u = s +:+ t +:+ u.
Proof. induction s as [|a s IH]; simpl; congruence. Qed.

Lemma append_length (s t : string) :
  String.length (s +:+ t) = String.length s + String.length t.
Proof. induction s as [|a s IH]; simpl; congruence. Qed.

Lemma append_cons_ne (a : ascii) (r p : string) : String a (r +:+ p) ≠ p.
Proof.
  intros E. apply (f_equal String.length) in E. simpl in E.
  rewrite append_length in E. lia.
Qed.

Lemma startswith_spec (p s : string) :
  Str.startswith p s = true ↔ ∃ post, s = p +:+ post.
Proof.
  revert s. induction p as [|a p IH]; intros s; simpl.
  - split; [intros _; by exists s|done].
  - destruct s as [|b s].
    + split; [done|]. by intros [post ?].
    + rewrite andb_true_iff, Ascii.eqb_eq, IH. split.
      * intros [-> [post ->]]. by exists post.
      * intros [post E]. injection E as -> ->. eauto.
Qed.

Lemma contains_spec (needle hay : string) :
  Str.contains needle hay = true ↔ ∃ pre post, hay = pre +:+ needle +:+ post.
Proof.
  induction hay as [|a hay IH]; simpl; rewrite orb_true_iff, startswith_spec.
  - split.
    + intros [[post E]|?]; [|done]. by exists "", post.
    + intros ([|b pre] & post & E); [|done]. left. by exists post.
  - rewrite IH. split.
    + intros [[post E]|(pre & post & ->)]; [by exists "", post|].
      by exists (String a pre), post.
    + intros ([|b pre] & post & E); [left; by exists post|].
      injection E as -> ->. right. eauto.
Qed.

Lemma contains_char (c : ascii) (s : string) :
  Str.contains (String c "") s = true ↔ char_in c s.
Proof. rewrite contains_spec. done. Qed.

Lemma char_in_cons (c a : ascii) (s : string) :
  char_in c (String a s) ↔ a = c ∨ char_in c s.
Proof.
  split.
  - intros ([|b pre] & post & E); simplify_eq/=; [by left|].
    right. by exists pre, post.
  - intros [->|(pre & post & ->)]; [by exists "", s|].
    by exists (String a pre), post.
Qed.

Lemma char_in_nil (c : ascii) : ¬ char_in c "".
Proof. intros ([|??] & ? & ?); done. Qed.

Lemma rpartition_None (c : ascii) (s : string) :
  Str.rpartition c s = None ↔ ¬ char_in c s.
Proof.
  induction s as [|a s IH]; simpl.
  - split; [|done]. intros _. apply char_in_nil.
  - rewrite char_in_cons.
    destruct (Str.rpartition c s) as [[h t]|] eqn:E.
    + split; [done|]. intros Hn.
      assert (Some (h, t) = None) by (apply IH; tauto). done.
    + destruct (Ascii.eqb_spec a c) as [->|Hne].
      * split; [done|]. tauto.
      * split; [|done]. intros _ [?|?]; [done|]. by apply (proj1 IH).
Qed.

Lemma rpartition_Some (c : ascii) (s h t : string) :
  Str.rpartition c s = Some (h, t) → s = h +:+ String c t ∧ ¬ char_in c t.
Proof.
  revert h. induction s as [|a s IH]; intros h; simpl; [done|].
  destruct (Str.rpartition c s) as [[h' t']|] eqn:E.
  - intros [= <- <-]. destruct (IH h' eq_refl) as [-> ?]. done.
  - destruct (Ascii.eqb_spec a c) as [->|Hne]; [|done].
    intros [= <- <-]. split; [done|]. by apply rpartition_None.
Qed.

Lemma rpartition_app (c : ascii) (h t : string) :
  ¬ char_in c t → Str.rpartition c (h +:+ String c t) = Some (h, t).
Proof.
  intros Ht. induction h as [|a h IH]; simpl.
  - apply rpartition_None in Ht as ->. by rewrite Ascii.eqb_refl.
  - by rewrite IH.
Qed.

(** [s.rsplit(c, 1)[-1]] is the final segment of [s]. *)
Lemma rsplit1_last (c : ascii) (s : string) :
  is_final_segment c s (last_item (Str.rsplit1 c s)).
Proof.
  unfold Str.rsplit1, is_final_segment.
  destruct (Str.rpartition c s) as [[h t]|] eqn:E; simpl.
  - apply rpartition_Some in E as [-> ?]. eauto.
  - apply rpartition_None in E. eauto.
Qed.

Lemma removesuffix_unfold (suf s : string) :
  Str.removesuffix suf s =
    if String.eqb s suf then ""
    else match s with
         | "" => ""
         | String a s' => String a (Str.removesuffix suf s')
         end.
Proof. by destruct s. Qed.

Lemma removesuffix_spec (suf s : string) :
  without_suffix suf s (Str.removesuffix suf s).
Proof.
  unfold without_suffix.
  induction s as [|a s IH]; rewrite removesuffix_unfold.
  - destruct (String.eqb_spec "" suf) as [<-|Hne]; [by left|].
    right. split; [|done]. intros [|??] E; simpl in E; congruence.
  - destruct (String.eqb_spec (String a s) suf) as [<-|Hne]; [by left|].
    destruct IH as [IH|[IH1 IH2]].
    + left. simpl. by rewrite <-IH.
    + right. rewrite IH2. split; [|done].
      intros [|b r'] E; simpl in E; [done|]. injection E as -> E.
      by apply (IH1 r').
Qed.

Lemma removesuffix_app (suf r : string) : Str.removesuffix suf (r +:+ suf) = r.
Proof.
  induction r as [|a r IH]; rewrite removesuffix_unfold.
  - change ("" +:+ suf) with suf. by rewrite String.eqb_refl.
  - change (String a r +:+ suf) with (String a (r +:+ suf)).
    destruct (String.eqb_spec (String a (r +:+ suf)) suf) as [E|_];
      [by apply append_cons_ne in E|]. by rewrite IH.
Qed.

(** ** The error monad *)

Lemma rmapM_Ok {A B} (f : A → result B) (g : A → B) (l : list A) :
  (∀ x, f x = Ok (g x)) → rmapM f l = Ok (g <$> l).
Proof.
  intros Hf. induction l as [|x l IH]; simpl; [done|]. by rewrite Hf, IH.
Qed.

Lemma concat_join {A} (ls : list (list A)) : concat ls = mjoin ls.
Proof. induction ls as [|l ls IH]; simpl; [done|]. by rewrite IH. Qed.

(** ** [group_by_dir] *)

Lemma defaultdict_add_keys dirs d f :
  (defaultdict_add dirs d f).*1 = oset_add (dirs.*1) d.
Proof.
  induction dirs as [|[d' fs] dirs IH]; csimpl; [done|].
  destruct (decide (d' = d)) as [->|Hne]; csimpl.
  - unfold oset_add. by rewrite decide_True by left.
  - rewrite IH. unfold oset_add. destruct (decide (d ∈ dirs.*1)) as [Hin|Hin].
    + by rewrite decide_True by (by right).
    + rewrite decide_False; [done|].
      intros [?|?]%elem_of_cons; [by subst|done].
Qed.

Lemma defaultdict_add_entries dirs d f d' f' :
  entry_in (defaultdict_add dirs d f) d' f' ↔
  entry_in dirs d' f' ∨ (d' = d ∧ f' = f).
Proof.
  unfold entry_in. induction dirs as [|[d0 fs] dirs IH]; simpl.
  - split.
    + intros (files & Hin & Hf). apply list_elem_of_singleton in Hin.
      simplify_eq. apply elem_of_oset_add in Hf as [Hf| ->]; [|by right].
      by apply elem_of_nil in Hf.
    + intros [(files & Hin & _)|[-> ->]]; [by apply elem_of_nil in Hin|].
      eexists. split; [by left|]. apply elem_of_oset_add. by right.
  - case_decide as Hd.
    + subst d0. split.
      * intros (files & Hin & Hf). apply elem_of_cons in Hin as [E|Hin].
        -- simplify_eq. apply elem_of_oset_add in Hf as [Hf| ->]; [|by right].
           left. exists fs. split; [by left|done].
        -- left. exists files. split; [by right|done].
      * intros [(files & Hin & Hf)|[-> ->]].
        -- apply elem_of_cons in Hin as [E|Hin].
           ++ simplify_eq. eexists. split; [by left|].
              apply elem_of_oset_add. by left.
           ++ exists files. split; [by right|done].
        -- eexists. split; [by left|]. apply elem_of_oset_add. by right.
    + split.
      * intros (files & Hin & Hf). apply elem_of_cons in Hin as [E|Hin].
        -- simplify_eq. left. exists fs. split; [by left|done].
        -- destruct (proj1 IH) as [(files' & ? & ?)|?]; [by eauto| |by right].
           left. exists files'. split; [by right|done].
      * intros [(files & Hin & Hf)|Heq].
        -- apply elem_of_cons in Hin as [E|Hin].
           ++ simplify_eq. exists fs. split; [by left|done].
           ++ destruct (proj2 IH) as (files' & ? & ?); [left; by eauto|].
              exists files'. split; [by right|done].
        -- destruct (proj2 IH) as (files' & ? & ?); [by right|].
           exists files'. split; [by right|done].
Qed.

Lemma defaultdict_add_NoDup dirs d f :
  Forall (λ e, NoDup e.2) dirs → Forall (λ e, NoDup e.2) (defaultdict_add dirs d f).
Proof.
  induction 1 as [|[d' fs] dirs Hfs Hdirs IH]; simpl.
  - constructor; [|constructor]. apply NoDup_oset_add, NoDup_nil_2.
  - case_decide; constructor; simpl in *; auto using NoDup_oset_add.
Qed.

Section group_by_dir_facts.
Implicit Types (paths : list string) (dirs : list (string * list string)).

Let step := λ dirs (path : string),
  let '(dirname, filename) := os_path.split path in
  defaultdict_add dirs dirname filename.

Lemma group_by_dir_foldl_entries paths dirs d f :
  entry_in (foldl step dirs paths) d f ↔
  entry_in dirs d f ∨ ∃ p, p ∈ paths ∧ os_path.split p = (d, f).
Proof.
  revert dirs. induction paths as [|p paths IH]; intros dirs; simpl.
  - split; [by left|]. intros [?|(p & Hp & _)]; [done|].
    by apply elem_of_nil in Hp.
  - rewrite IH. unfold step. destruct (os_path.split p) as [d0 f0] eqn:E.
    rewrite defaultdict_add_entries. split.
    + intros [[?|[-> ->]]|(q & Hq & Hs)]; [by left| |].
      * right. exists p. split; [by left|done].
      * right. exists q. split; [by right|done].
    + intros [?|(q & Hq & Hs)]; [left; by left|].
      apply elem_of_cons in Hq as [->|Hq].
      * left. right. rewrite E in Hs. by simplify_eq.
      * right. eauto.
Qed.

Lemma group_by_dir_foldl_keys paths dirs :
  NoDup dirs.*1 → NoDup (foldl step dirs paths).*1.
Proof.
  revert dirs. induction paths as [|p paths IH]; intros dirs Hd; simpl; [done|].
  apply IH. unfold step. destruct (os_path.split p).
  rewrite defaultdict_add_keys. by apply NoDup_oset_add.
Qed.

Lemma group_by_dir_foldl_NoDup paths dirs :
  Forall (λ e, NoDup e.2) dirs → Forall (λ e, NoDup e.2) (foldl step dirs paths).
Proof.
  revert dirs. induction paths as [|p paths IH]; intros dirs Hd; simpl; [done|].
  apply IH. unfold step. destruct (os_path.split p).
  by apply defaultdict_add_NoDup.
Qed.

(** Applied to a collection of paths, [group_by_dir] records every path,
    and nothing else, under its directory. *)
Lemma group_by_dir_entries paths d f :
  entry_in (group_by_dir paths) d f ↔ ∃ p, p ∈ paths ∧ os_path.split p = (d, f).
Proof.
  unfold group_by_dir. fold step. rewrite group_by_dir_foldl_entries.
  split; [|by right]. intros [(files & Hin & _)|?]; [|done].
  by apply elem_of_nil in Hin.
Qed.

(** No directory has two groups. *)
Lemma group_by_dir_keys paths : NoDup (group_by_dir paths).*1.
Proof. apply group_by_dir_foldl_keys. constructor. Qed.

(** No group lists a file name twice. *)
Lemma group_by_dir_NoDup paths : Forall (λ e, NoDup e.2) (group_by_dir paths).
Proof. apply group_by_dir_foldl_NoDup. constructor. Qed.
End group_by_dir_facts.

(** ** [PutativeTargets] *)

Section strictly_sorted.
Context {A : Type} `{Lexico A}.
Context `{!StrictOrder (@lexico A _), !TrichotomyT (@lexico A _)}.
Implicit Types (l k : list A).

Lemma StronglySorted_strict l :
  StronglySorted py_le l → NoDup l → StronglySorted lexico l.
Proof.
  induction 1 as [|x l Hl IH Hx]; intros Hnd; constructor.
  - apply IH. by apply NoDup_cons in Hnd as [_ ?].
  - apply NoDup_cons in Hnd as [Hnin _].
    rewrite Forall_forall in Hx. apply Forall_forall. intros y Hy.
    destruct (Hx y Hy) as [?| ->]; done.
Qed.

(** Sorting, then dropping repetitions: the result only depends on the
    elements. *)
Lemma oset_sorted_unique `{!EqDecision A} l k :
  l ≡ₚ k → oset_of_list (sorted l) = oset_of_list (sorted k).
Proof. intros E. by rewrite (sorted_unique l k E). Qed.

Lemma oset_sorted_strict `{!EqDecision A} l :
  StronglySorted lexico (oset_of_list (sorted l)).
Proof.
  apply StronglySorted_strict; [|apply NoDup_oset_of_list].
  eapply StronglySorted_sublist; [apply sublist_oset_of_list|].
  apply sorted_StronglySorted.
Qed.
End strictly_sorted.

Lemma PutativeTargets_Permutation pts pts' :
  pts ≡ₚ pts' → PutativeTargets pts = PutativeTargets pts'.
Proof. apply oset_sorted_unique. Qed.

Lemma PutativeTargets_strict pts : StronglySorted lexico (PutativeTargets pts).
Proof. apply oset_sorted_strict. Qed.

Lemma elem_of_PutativeTargets pts pt : pt ∈ PutativeTargets pts ↔ pt ∈ pts.
Proof. unfold PutativeTargets. by rewrite elem_of_oset_of_list, elem_of_sorted. Qed.

(** ** [find_putative_targets] *)

Import toml_sources.

Lemma for_target_type_generator dirname filenames :
  for_target_type (generator TomlSourcesGeneratorTarget) dirname None filenames
  = Ok (proposal dirname filenames).
Proof. by destruct filenames. Qed.

Lemma putative_targets_of_Ok paths :
  putative_targets_of paths = Ok (proposals_of paths).
Proof.
  unfold putative_targets_of, proposals_of. apply rmapM_Ok.
  intros [dirname filenames]. apply for_target_type_generator.
Qed.

Lemma collect_Ok unowned : collect unowned = Ok (unowned ≫= proposals_of).
Proof.
  unfold collect.
  rewrite (rmapM_Ok _ proposals_of) by apply putative_targets_of_Ok. simpl.
  f_equal. rewrite concat_join. induction unowned as [|p u IH]; csimpl; [done|].
  by rewrite IH.
Qed.

Lemma find_putative_targets_over_Ok unowned :
  find_putative_targets_over unowned
  = Ok (PutativeTargets (unowned ≫= proposals_of)).
Proof. unfold find_putative_targets_over. by rewrite collect_Ok. Qed.

(** The order in which the unowned set is iterated does not show in the
    result. *)
Lemma find_putative_targets_over_Permutation unowned unowned' :
  unowned ≡ₚ unowned' →
  find_putative_targets_over unowned = find_putative_targets_over unowned'.
Proof.
  intros E. rewrite !find_putative_targets_over_Ok. f_equal.
  apply PutativeTargets_Permutation. by rewrite E.
Qed.

Lemma unowned_Permutation (files files' owned owned' : list string) :
  same_set files files' → same_set owned owned' →
  oset_difference (oset_of_list files) (oset_of_list owned)
  ≡ₚ oset_difference (oset_of_list files') (oset_of_list owned').
Proof.
  intros Hf Ho. apply NoDup_Permutation.
  - apply NoDup_oset_difference, NoDup_oset_of_list.
  - apply NoDup_oset_difference, NoDup_oset_of_list.
  - intros x. rewrite !elem_of_oset_difference, !elem_of_oset_of_list.
    by rewrite (Hf x), (Ho x).
Qed.

(** The unowned set is the set difference of the inputs. *)
Lemma unowned_spec (files owned : list string) x :
  x ∈ oset_difference (oset_of_list files) (oset_of_list owned)
  ↔ x ∈ files ∧ x ∉ owned.
Proof. by rewrite elem_of_oset_difference, !elem_of_oset_of_list. Qed.

Lemma proposals_of_sorted paths pt :
  pt ∈ proposals_of paths → StronglySorted lexico (triggering_sources pt).
Proof.
  unfold proposals_of. intros ([d fs] & -> & Hin)%list_elem_of_fmap. simpl.
  apply StronglySorted_strict; [apply sorted_StronglySorted|].
  apply NoDup_sorted.
  by apply (proj1 (Forall_forall _ _) (group_by_dir_NoDup (Str.iter paths)) _ Hin).
Qed.

(** *** What the rule groups *)

Lemma split_character (a : ascii) :
  os_path.split (String a "")
  = if Ascii.eqb a "/" then ("/", "") else ("", String a "").
Proof.
  unfold os_path.split. simpl. change os_path.sep with "/"%char.
  by destruct (Ascii.eqb a "/").
Qed.

Lemma elem_of_iter (c paths : string) :
  c ∈ Str.iter paths → ∃ a, c = String a "".
Proof.
  induction paths as [|a paths IH]; simpl.
  - by intros ?%elem_of_nil.
  - intros [->|?]%elem_of_cons; eauto.
Qed.

Lemma group_by_dir_foldl_keys_spec (paths : list string) dirs d :
  d ∈ (foldl (λ dirs path,
                let '(dirname, filename) := os_path.split path in
                defaultdict_add dirs dirname filename) dirs paths).*1
  ↔ d ∈ dirs.*1 ∨ ∃ p, p ∈ paths ∧ (os_path.split p).1 = d.
Proof.
  revert dirs. induction paths as [|p paths IH]; intros dirs; simpl.
  - split; [by left|]. intros [?|(p & Hp & _)]; [done|].
    by apply elem_of_nil in Hp.
  - rewrite IH. destruct (os_path.split p) as [d0 f0] eqn:E.
    rewrite defaultdict_add_keys, elem_of_oset_add. split.
    + intros [[?| ->]|(q & Hq & Hs)]; [by left| |].
      * right. exists p. split; [by left|]. by rewrite E.
      * right. exists q. split; [by right|done].
    + intros [?|(q & Hq & Hs)]; [left; by left|].
      apply elem_of_cons in Hq as [->|Hq].
      * left. right. by rewrite E in Hs.
      * right. eauto.
Qed.

(** Whatever the inputs, a proposal of the rule lies in the root directory or
    in [/], and what triggers it are single characters (or the empty
    name): never the name of a TOML file. *)
Lemma find_putative_targets_characters toml_setup files owned pts pt :
  find_putative_targets toml_setup files owned = Ok pts → pt ∈ pts →
  (path pt = "" ∨ path pt = "/")
  ∧ Forall (λ f, String.length f ≤ 1) (triggering_sources pt).
Proof.
  unfold find_putative_targets. destruct (tailor toml_setup); simpl.
  2: { intros [= <-] Hpt. by apply elem_of_nil in Hpt. }
  rewrite find_putative_targets_over_Ok. intros [= <-] Hpt.
  apply elem_of_PutativeTargets, list_elem_of_bind in Hpt as (p & Hpt & _).
  unfold proposals_of in Hpt.
  apply list_elem_of_fmap in Hpt as ([d fs] & -> & Hin). simpl. split.
  - assert (d ∈ (group_by_dir (Str.iter p)).*1) as Hd.
    { apply list_elem_of_fmap. by exists (d, fs). }
    apply group_by_dir_foldl_keys_spec in Hd as [Hd|(c & Hc & <-)].
    { by apply elem_of_nil in Hd. }
    apply elem_of_iter in Hc as [a ->]. rewrite split_character.
    destruct (Ascii.eqb a "/"); auto.
  - apply Forall_forall. intros f Hf. rewrite elem_of_sorted in Hf.
    assert (entry_in (group_by_dir (Str.iter p)) d f) as He by (by exists fs).
    apply group_by_dir_entries in He as (c & Hc & Hs).
    apply elem_of_iter in Hc as [a ->]. rewrite split_character in Hs.
    destruct (Ascii.eqb a "/"); simplify_eq; simpl; lia.
Qed.

(** C1. Claimed: with tailoring enabled, every unowned file appears in
    exactly one group keyed by its parent directory, and the groups together
    hold the unowned files exactly. The rule computes the unowned set as the
    difference of the two inputs, but then hands each unowned path, a string,
    to [group_by_dir], which groups its characters. For the single unowned
    file [a/y.toml] the rule proposes a target in the root directory
    triggered by the characters of the path and one in [/] triggered by the
    empty name; grouping the unowned set itself would give the one group
    [a] holding [y.toml]. ([find_putative_targets_characters] has the
    general form.) *)
Theorem find_putative_targets_groups_characters :
  find_putative_targets TomlSetup_default ["a/y.toml"] []
  = Ok [ proposal "" ["."; "a"; "l"; "m"; "o"; "t"; "y"]; proposal "/" [""] ]
  ∧ oset_difference (oset_of_list ["a/y.toml"]) (oset_of_list []) = ["a/y.toml"]
  ∧ group_by_dir ["a/y.toml"] = [("a", ["y.toml"])].
Proof. split_and!; vm_compute; reflexivity. Qed.

(** C2. Claimed: for the candidates [a/x.toml], [a/y.toml], [b/z.toml] and
    the owned file [a/x.toml] the rule proposes exactly one target for [a],
    triggered by [y.toml], and one for [b], triggered by [z.toml]. The rule
    returns three proposals, none of them in [a] or [b]: two in the root
    directory, triggered by the characters of each unowned path, and one in
    [/]. *)
Theorem find_putative_targets_scenario :
  find_putative_targets TomlSetup_default
    ["a/x.toml"; "a/y.toml"; "b/z.toml"] ["a/x.toml"]
  = Ok [ proposal "" ["."; "a"; "l"; "m"; "o"; "t"; "y"];
         proposal "" ["."; "b"; "l"; "m"; "o"; "t"; "z"];
         proposal "/" [""] ]
  ∧ find_putative_targets TomlSetup_default
      ["a/x.toml"; "a/y.toml"; "b/z.toml"] ["a/x.toml"]
    ≠ Ok [ proposal "a" ["y.toml"]; proposal "b" ["z.toml"] ].
Proof. split; [vm_compute; reflexivity|]. vm_compute. discriminate. Qed.

(** C3. Discovery is deterministic: the proposals only depend on the set of
    candidate files and the set of owned files, not on how the two
    collections are listed, nor on the order in which Python iterates over
    the unowned set. The proposals come strictly sorted, and so does the list
    of triggering file names of each. *)
Theorem find_putative_targets_deterministic (toml_setup : TomlSetup)
    (files files' owned owned' : list string) :
  same_set files files' → same_set owned owned' →
  find_putative_targets toml_setup files owned
  = find_putative_targets toml_setup files' owned'
  ∧ (∀ order,
       order ≡ₚ oset_difference (oset_of_list files) (oset_of_list owned) →
       tailor toml_setup = true →
       find_putative_targets_over order
       = find_putative_targets toml_setup files owned)
  ∧ ∃ pts,
      find_putative_targets toml_setup files owned = Ok pts
      ∧ StronglySorted lexico pts
      ∧ Forall (λ pt, StronglySorted lexico (triggering_sources pt)) pts.
Proof.
  intros Hf Ho. unfold find_putative_targets.
  destruct (tailor toml_setup); simpl.
  - split_and!.
    + by apply find_putative_targets_over_Permutation, unowned_Permutation.
    + intros order E _. by apply find_putative_targets_over_Permutation.
    + eexists. split; [apply find_putative_targets_over_Ok|].
      split; [apply PutativeTargets_strict|].
      apply Forall_forall. intros pt Hpt.
      apply elem_of_PutativeTargets, list_elem_of_bind in Hpt as (p & Hpt & _).
      by apply proposals_of_sorted in Hpt.
  - split_and!; [done|by intros ? ? [=]|].
    exists (PutativeTargets []). split; [done|].
    split; [apply PutativeTargets_strict|]. vm_compute. constructor.
Qed.

Lemma find_putative_targets_deterministic_witness :
  find_putative_targets TomlSetup_default
    ["a/x.toml"; "a/y.toml"; "b/z.toml"] ["a/x.toml"]
  = find_putative_targets TomlSetup_default
      ["b/z.toml"; "a/y.toml"; "a/x.toml"; "a/y.toml"] ["a/x.toml"; "a/x.toml"].
Proof.
  refine (proj1 (find_putative_targets_deterministic TomlSetup_default
    ["a/x.toml"; "a/y.toml"; "b/z.toml"]
    ["b/z.toml"; "a/y.toml"; "a/x.toml"; "a/y.toml"]
    ["a/x.toml"] ["a/x.toml"; "a/x.toml"] _ _));
    intros x; rewrite !elem_of_cons, !elem_of_nil; tauto.
Defined.

Lemma list_difference_subseteq {A} `{EqDecision A} (l k : list A) :
  l ⊆ k → list_difference l k = [].
Proof.
  intros Hlk. induction l as [|x l IH]; simpl; [done|].
  destruct (decide_rel (∈) x k) as [_|Hn]; [|destruct Hn; apply Hlk; left].
  apply IH. intros y Hy. apply Hlk. by right.
Qed.

(** C4. When every candidate file is owned, discovery proposes nothing. *)
Theorem find_putative_targets_all_owned (toml_setup : TomlSetup)
    (files owned : list string) :
  files ⊆ owned → find_putative_targets toml_setup files owned = Ok [].
Proof.
  intros Hsub. unfold find_putative_targets.
  destruct (tailor toml_setup); simpl; [|done].
  unfold oset_difference. rewrite list_difference_subseteq; [done|].
  intros x. rewrite !elem_of_oset_of_list. apply Hsub.
Qed.

Lemma find_putative_targets_all_owned_witness :
  find_putative_targets TomlSetup_default ["a/x.toml"] ["a/x.toml"] = Ok []
  ∧ find_putative_targets TomlSetup_default [] [] = Ok [].
Proof.
  split.
  - apply (find_putative_targets_all_owned TomlSetup_default
             ["a/x.toml"] ["a/x.toml"]). by intros x Hx.
  - apply (find_putative_targets_all_owned TomlSetup_default [] []).
    by intros x Hx.
Defined.

(** C5. With the [tailor] option off, discovery returns the empty collection
    whatever the candidate and owned files are, and in no case does it
    raise. *)
Theorem find_putative_targets_never_raises (files owned : list string) :
  find_putative_targets {| tailor := false |} files owned = Ok []
  ∧ ∀ toml_setup, ∃ pts, find_putative_targets toml_setup files owned = Ok pts.
Proof.
  split; [done|]. intros toml_setup. unfold find_putative_targets.
  destruct (tailor toml_setup); simpl; [|by eexists].
  eexists. apply find_putative_targets_over_Ok.
Qed.

(** ** The formatting rules *)

Import taplo_fmt.

(** C6. On both pathways the argument vector is the executable, the
    subcommand [fmt], the extra arguments of the user in their order, and
    then the files of the batch; the declared output files are the files of
    the batch. *)
Theorem fmt_process_argv {Digest : Type} (merge_digests : list Digest → Digest)
    (request : Batch Digest) (taplo : Taplo)
    (downloaded_taplo : DownloadedExternalTool Digest) (config_digest : Digest) :
  let p_targets :=
    taplo_fmt merge_digests request taplo downloaded_taplo config_digest in
  let p_pyproject :=
    pyproject_toml_fmt merge_digests request taplo downloaded_taplo config_digest in
  argv p_targets = exe downloaded_taplo :: "fmt" :: args taplo ++ files request
  ∧ output_files p_targets = files request
  ∧ argv p_pyproject = exe downloaded_taplo :: "fmt" :: args taplo ++ files request
  ∧ output_files p_pyproject = files request.
Proof. by split_and!. Qed.

Lemma pyproject_checker_spec taplo filepaths f :
  f ∈ pyproject_checker taplo filepaths
  ↔ f ∈ filepaths ∧ ∃ pre post, f = pre +:+ "pyproject.toml" +:+ post.
Proof.
  unfold pyproject_checker.
  rewrite list_elem_of_filter, elem_of_oset_of_list, contains_spec. tauto.
Qed.

Lemma pyproject_checker_NoDup taplo filepaths :
  NoDup (pyproject_checker taplo filepaths).
Proof. apply NoDup_filter, NoDup_oset_of_list. Qed.

(** C7. With the [skip] option set the partitioner returns no partition.
    Otherwise it returns one partition, whose elements are the input paths
    that contain [pyproject.toml], each once, in ascending order. *)
Theorem partition_pyprojects_spec (request_files : list string) (taplo : Taplo) :
  ∃ elems,
    partition_pyprojects request_files taplo
    = (if skip taplo then [] else [ {| elements := elems |} ])
    ∧ (∀ f, f ∈ elems
            ↔ f ∈ request_files ∧ ∃ pre post, f = pre +:+ "pyproject.toml" +:+ post)
    ∧ NoDup elems
    ∧ StronglySorted lexico elems.
Proof.
  exists (sorted (pyproject_checker taplo request_files)). split_and!.
  - unfold partition_pyprojects. by destruct (skip taplo).
  - intros f. by rewrite elem_of_sorted, pyproject_checker_spec.
  - apply NoDup_sorted, pyproject_checker_NoDup.
  - apply StronglySorted_strict; [apply sorted_StronglySorted|].
    apply NoDup_sorted, pyproject_checker_NoDup.
Qed.

Lemma ends_with_unfold (p s : string) :
  Str.endswith p s
  = (String.eqb s p
     || match s with "" => false | String _ s' => Str.endswith p s' end).
Proof. by destruct s. Qed.

Lemma rstrip_unfold (c a : ascii) (s : string) :
  Str.rstrip c (String a s)
  = match Str.rstrip c s with
    | "" => if Ascii.eqb a c then "" else String a ""
    | r => String a r
    end.
Proof. done. Qed.

Lemma endswith_char_cons (c a : ascii) (s : string) :
  Str.endswith (String c "") (String a s) = false →
  (s = "" ∧ a ≠ c) ∨ (s ≠ "" ∧ Str.endswith (String c "") s = false).
Proof.
  rewrite ends_with_unfold. intros [Heq He]%orb_false_iff.
  destruct s as [|b s]; [left|right; by split].
  split; [done|]. intros ->. by rewrite String.eqb_refl in Heq.
Qed.

Lemma rstrip_snoc (c : ascii) (d : string) :
  d ≠ "" → Str.endswith (String c "") d = false →
  Str.rstrip c (d +:+ String c "") = d.
Proof.
  induction d as [|a d IH]; [done|]. intros _ He.
  change (String a d +:+ String c "") with (String a (d +:+ String c "")).
  rewrite rstrip_unfold.
  apply endswith_char_cons in He as [[-> Hne]|[Hd He]].
  - change ("" +:+ String c "") with (String c ""). rewrite rstrip_unfold.
    cbn [Str.rstrip]. rewrite Ascii.eqb_refl.
    by apply Ascii.eqb_neq in Hne as ->.
  - rewrite (IH Hd He). by destruct d.
Qed.

Lemma all_eq_snoc (c : ascii) (d : string) :
  d ≠ "" → Str.endswith (String c "") d = false →
  Str.all_eq c (d +:+ String c "") = false.
Proof.
  induction d as [|a d IH]; [done|]. intros _ He.
  change (String a d +:+ String c "") with (String a (d +:+ String c "")).
  cbn [Str.all_eq]. apply endswith_char_cons in He as [[-> Hne]|[Hd He]].
  - by apply Ascii.eqb_neq in Hne as ->.
  - rewrite (IH Hd He). apply andb_false_r.
Qed.

(** The file [d/n] lies in the directory [d] and is named [n]. *)
Lemma split_file_in_dir (d n : string) :
  d ≠ "" → Str.endswith "/" d = false → ¬ char_in "/" n →
  os_path.split (d +:+ "/" +:+ n) = (d, n).
Proof.
  intros Hd He Hn. unfold os_path.split. change os_path.sep with "/"%char.
  change (d +:+ "/" +:+ n) with (d +:+ String "/" n).
  rewrite rpartition_app by done. cbn zeta.
  by rewrite all_eq_snoc, rstrip_snoc.
Qed.

Lemma join_names_file_in (d n : string) :
  Str.startswith "/" n = false → names_file_in d n (os_path.join d n).
Proof.
  intros Hn. unfold names_file_in, os_path.join. rewrite Hn.
  destruct (decide (d = "")) as [->|Hd]; [done|].
  destruct d as [|a d]; [done|]. cbn [Str.is_empty orb].
  by destruct (Str.endswith "/" (String a d)).
Qed.

Lemma join_in_directory (d n : string) :
  d ≠ "" → Str.endswith "/" d = false → Str.startswith "/" n = false →
  os_path.join d n = d +:+ "/" +:+ n.
Proof.
  intros Hd Hend Hn. unfold os_path.join. rewrite Hn, Hend.
  by destruct d.
Qed.

(** C8. The request for configuration files checks [.taplo.toml] and
    [taplo.toml] in the root and in every directory it is given, and nothing
    else: for a directory [d] (not empty, no trailing slash) the paths
    [d/.taplo.toml] and [d/taplo.toml], which [os.path.split] places in [d].
    Its discovery flag is the [config_discovery] option, which is on by
    default. *)
Theorem config_request_spec (taplo : Taplo) (dirs : list string) :
  let r := config_request taplo dirs in
  discovery r = config_discovery taplo
  ∧ config_discovery Taplo_default = true
  ∧ ".taplo.toml" ∈ check_existence r
  ∧ "taplo.toml" ∈ check_existence r
  ∧ Forall (λ d, d ≠ "" → Str.endswith "/" d = false →
                 d +:+ "/.taplo.toml" ∈ check_existence r
                 ∧ d +:+ "/taplo.toml" ∈ check_existence r
                 ∧ os_path.split (d +:+ "/.taplo.toml") = (d, ".taplo.toml")
                 ∧ os_path.split (d +:+ "/taplo.toml") = (d, "taplo.toml")) dirs
  ∧ Forall (λ d, ∃ c1 c2,
                 c1 ∈ check_existence r ∧ c2 ∈ check_existence r
                 ∧ names_file_in d ".taplo.toml" c1
                 ∧ names_file_in d "taplo.toml" c2) dirs
  ∧ Forall (λ c, ∃ d, d ∈ "" :: dirs
                      ∧ (names_file_in d ".taplo.toml" c
                         ∨ names_file_in d "taplo.toml" c))
           (check_existence r).
Proof.
  intros r. subst r. unfold config_request, ConfigFilesRequest_init.
  cbn [discovery check_existence].
  assert (∀ d n, d ∈ "" :: dirs → n = ".taplo.toml" ∨ n = "taplo.toml" →
    os_path.join d n
    ∈ sorted (((λ d, os_path.join d ".taplo.toml") <$> "" :: dirs)
              ++ ((λ d, os_path.join d "taplo.toml") <$> "" :: dirs))) as Hin.
  { intros d n Hd Hn. rewrite elem_of_sorted, elem_of_app.
    destruct Hn as [->| ->]; [left|right]; apply list_elem_of_fmap; eauto. }
  assert (¬ char_in "/" ".taplo.toml") as Hn1
    by (rewrite <-contains_char; by vm_compute).
  assert (¬ char_in "/" "taplo.toml") as Hn2
    by (rewrite <-contains_char; by vm_compute).
  split_and!; try done.
  - apply (Hin "" ".taplo.toml"); [left|by left].
  - apply (Hin "" "taplo.toml"); [left|by right].
  - apply Forall_forall. intros d Hd Hne He. split_and!.
    + change (d +:+ "/.taplo.toml") with (d +:+ "/" +:+ ".taplo.toml").
      rewrite <-(join_in_directory d ".taplo.toml") by done.
      apply Hin; [by right|by left].
    + change (d +:+ "/taplo.toml") with (d +:+ "/" +:+ "taplo.toml").
      rewrite <-(join_in_directory d "taplo.toml") by done.
      apply Hin; [by right|by right].
    + by apply (split_file_in_dir d ".taplo.toml").
    + by apply (split_file_in_dir d "taplo.toml").
  - apply Forall_forall. intros d Hd.
    exists (os_path.join d ".taplo.toml"), (os_path.join d "taplo.toml").
    split_and!.
    + apply Hin; [by right|by left].
    + apply Hin; [by right|by right].
    + by apply join_names_file_in.
    + by apply join_names_file_in.
  - apply Forall_forall. intros c. rewrite elem_of_sorted.
    intros [Hc|Hc]%elem_of_app;
      apply list_elem_of_fmap in Hc as (d & -> & Hd); exists d;
      (split; [done|]); [left|right]; by apply join_names_file_in.
Qed.

(** *** The expansion of a [toml_sources] generator *)






Example expansion_with_override :
  let decl := {| spec_path := "cfg";
                 kwargs := [("dependencies", VTuple ["//lib"])];
                 overrides := [("q.toml", [("skip_taplo", VBool true)])] |} in
  let generated :=
    generate_file_level_targets toml_sources.TomlSourcesGeneratorTarget decl
      ["p.toml"; "q.toml"] in
  (λ t, Target_get t toml_sources.TomlSourceField) <$> generated
  = [VStr "p.toml"; VStr "q.toml"]
  ∧ opt_out <$> generated = [false; true]
  ∧ (λ t, Target_get t toml_sources.TomlDependenciesField) <$> generated
    = [VTuple ["//lib"]; VTuple ["//lib"]]
  ∧ path_globs toml_sources.TomlSourcesGeneratorTarget decl = ["cfg/*.toml"].
Proof. vm_compute. done. Qed.


Lemma char_in_app (c : ascii) (s t : string) :
  char_in c (s +:+ t) ↔ char_in c s ∨ char_in c t.
Proof.
  induction s as [|a s IH]; simpl.
  - split; [by right|]. intros [[]%char_in_nil|?]; done.
  - rewrite !char_in_cons, IH. tauto.
Qed.

Lemma generate_url_default (self : Taplo) (plat : Platform) :
  url_template self = default_url_template →
  generate_url self plat
  = Ok (("https://github.com/tamasfe/taplo/releases/download/" +:+ version self)
        +:+ String "/"
              (("taplo-" +:+ mapped_platform_name (url_platform_mapping self) plat)
               +:+ ".gz")).
Proof. unfold generate_url. by intros ->. Qed.

(** C10. The executable path is [./] followed by the final segment of the
    download URL without a trailing [.gz]. With the default URL template it
    is [./taplo-] followed by the mapped name of the platform, whatever the
    version: for each platform of the default mapping, and for any mapping
    whose name for the platform has no slash. *)
Theorem generate_exe_spec :
  (∀ self plat,
     match generate_url self plat with
     | Ok url =>
         ∃ seg stem,
           is_final_segment "/" url seg
           ∧ without_suffix ".gz" seg stem
           ∧ generate_exe self plat = Ok ("./" +:+ stem)
     | Raise e => generate_exe self plat = Raise e
     end)
  ∧ (∀ v sk ar cd plat,
       generate_exe
         {| version := v; url_template := default_url_template;
            url_platform_mapping := default_url_platform_mapping;
            skip := sk; args := ar; config_discovery := cd |} plat
       = Ok ("./taplo-" +:+ mapped_platform_name default_url_platform_mapping plat))
  ∧ (∀ self plat,
       url_template self = default_url_template →
       ¬ char_in "/" (mapped_platform_name (url_platform_mapping self) plat) →
       generate_exe self plat
       = Ok ("./taplo-" +:+ mapped_platform_name (url_platform_mapping self) plat)).
Proof.
  assert (∀ self plat,
    url_template self = default_url_template →
    ¬ char_in "/" (mapped_platform_name (url_platform_mapping self) plat) →
    generate_exe self plat
    = Ok ("./taplo-" +:+ mapped_platform_name (url_platform_mapping self) plat))
    as Hdefault.
  { intros self plat Ht Hname. unfold generate_exe.
    rewrite generate_url_default by done. unfold rbind, Str.rsplit1.
    rewrite rpartition_app.
    - unfold last_item. cbn [List.last]. by rewrite removesuffix_app.
    - rewrite !char_in_app. intros [[Hc|Hc]|Hc]; [|done|].
      + apply contains_char in Hc. discriminate Hc.
      + apply contains_char in Hc. discriminate Hc. }
  split_and!; [| |done].
  - intros self plat. unfold generate_exe.
    destruct (generate_url self plat) as [url|e]; simpl; [|done].
    eexists _, _. split_and!; [apply rsplit1_last|apply removesuffix_spec|done].
  - intros v sk ar cd plat. apply Hdefault; [done|]. simpl.
    rewrite <-contains_char. by destruct plat.
Qed.

(** * Further properties of the rules *)

(** ** Looking up a directory in the result of [group_by_dir] *)

Lemma assoc_get_defaultdict_add dirs d f k :
  assoc_get k (defaultdict_add dirs d f)
  = if decide (k = d) then Some (oset_add (default [] (assoc_get k dirs)) f)
    else assoc_get k dirs.
Proof.
  induction dirs as [|[d0 fs] dirs IH]; simpl.
  - by destruct (decide (k = d)).
  - destruct (decide (d0 = d)) as [->|Hne]; simpl.
    + by destruct (decide (k = d)).
    + destruct (decide (k = d0)) as [->|Hk].
      * by rewrite decide_False by done.
      * apply IH.
Qed.

Lemma elem_of_assoc_get {V} (d : list (string * V)) k v :
  NoDup d.*1 → (k, v) ∈ d ↔ assoc_get k d = Some v.
Proof.
  induction d as [|[k0 v0] d IH]; csimpl; intros Hnd.
  - split; [by intros ?%elem_of_nil|done].
  - apply NoDup_cons in Hnd as [Hk0 Hnd]. rewrite elem_of_cons, (IH Hnd).
    destruct (decide (k = k0)) as [->|Hne].
    + split; [intros [[= ->]|Hin]; [done|]|intros [= ->]; by left].
      destruct Hk0. apply list_elem_of_fmap. exists (k0, v).
      split; [done|]. by apply (IH Hnd).
    + split; [intros [[= -> ->]|?]; done|by right].
Qed.

Lemma files_in_cons d p paths :
  files_in d (p :: paths)
  = if decide ((os_path.split p).1 = d)
    then (os_path.split p).2 :: files_in d paths else files_in d paths.
Proof. unfold files_in. rewrite filter_cons. by case_decide. Qed.

Lemma group_by_dir_foldl_lookup (paths : list string) dirs k :
  assoc_get k (foldl (λ dirs path,
                        let '(dirname, filename) := os_path.split path in
                        defaultdict_add dirs dirname filename) dirs paths)
  = match assoc_get k dirs, files_in k paths with
    | None, [] => None
    | o, fs => Some (foldl oset_add (default [] o) fs)
    end.
Proof.
  revert dirs. induction paths as [|p paths IH]; intros dirs.
  - simpl. by destruct (assoc_get k dirs).
  - cbn [foldl]. rewrite IH, files_in_cons.
    destruct (os_path.split p) as [d0 f0] eqn:E. simpl.
    rewrite assoc_get_defaultdict_add.
    destruct (decide (k = d0)) as [->|Hne].
    + rewrite decide_True by done. by destruct (assoc_get d0 dirs).
    + by rewrite decide_False by done.
Qed.

(** A directory has a group exactly when some path lies in it, and the group
    holds the file names of those paths, each once, in the order in which
    they first occur. *)
Lemma group_by_dir_lookup (paths : list string) k :
  assoc_get k (group_by_dir paths)
  = match files_in k paths with
    | [] => None
    | fs => Some (oset_of_list fs)
    end.
Proof. unfold group_by_dir. by rewrite group_by_dir_foldl_lookup. Qed.

Lemma elem_of_group_by_dir (paths : list string) d fs :
  (d, fs) ∈ group_by_dir paths
  ↔ files_in d paths ≠ [] ∧ fs = oset_of_list (files_in d paths).
Proof.
  rewrite (elem_of_assoc_get _ _ _ (group_by_dir_keys paths)), group_by_dir_lookup.
  destruct (files_in d paths) as [|f fs'].
  - split; [done|by intros [? _]].
  - split; [by intros [= <-]|by intros [_ ->]].
Qed.

(** ** The groups of the characters of a path *)

Lemma single_character_slash (a : ascii) : String a "" = "/" ↔ a = "/"%char.
Proof. split; [by intros [= ->]|by intros ->]. Qed.

Lemma files_in_root_iter (p : string) :
  files_in "" (Str.iter p) = path_characters p.
Proof.
  unfold path_characters. induction p as [|a p IH]; [done|].
  cbn [Str.iter]. rewrite files_in_cons, filter_cons, split_character, IH.
  destruct (Ascii.eqb_spec a "/") as [->|Hne]; simpl; [done|].
  by rewrite decide_True by (by rewrite single_character_slash).
Qed.

Lemma files_in_slash_iter (p : string) :
  Forall (λ f, f = "") (files_in "/" (Str.iter p))
  ∧ (files_in "/" (Str.iter p) ≠ [] ↔ char_in "/" p).
Proof.
  induction p as [|a p [IH1 IH2]].
  - split; [constructor|]. split; [done|]. by intros ?%char_in_nil.
  - cbn [Str.iter]. rewrite files_in_cons, split_character, char_in_cons.
    destruct (Ascii.eqb_spec a "/") as [->|Hne]; simpl.
    + split; [by constructor|]. split; [by left|done].
    + split; [done|]. rewrite IH2. tauto.
Qed.

Lemma files_in_other_iter (p d : string) :
  d ≠ "" → d ≠ "/" → files_in d (Str.iter p) = [].
Proof.
  intros Hroot Hslash. induction p as [|a p IH]; [done|].
  cbn [Str.iter]. rewrite files_in_cons, split_character, IH.
  destruct (Ascii.eqb a "/"); simpl; by rewrite decide_False by done.
Qed.

Lemma oset_of_list_constant {A} `{EqDecision A} (x : A) (l : list A) :
  l ≠ [] → Forall (λ y, y = x) l → oset_of_list l = [x].
Proof.
  destruct l as [|y l]; [done|]. intros _ [-> Hl]%Forall_cons.
  unfold oset_of_list. cbn [foldl].
  assert (oset_add [] x = [x]) as -> by done.
  induction Hl as [|y l -> _ IH]; [done|]. cbn [foldl].
  assert (oset_add [x] x = [x]) as ->; [|done].
  unfold oset_add. by rewrite decide_True by left.
Qed.

(** What the rule proposes for one unowned path: a target in the root
    directory triggered by the distinct characters of the path other than
    the slash, when there is one, and a target in [/] triggered by the empty
    name, when the path has a slash. *)
Lemma elem_of_proposals_of (p : string) (pt : PutativeTarget) :
  pt ∈ proposals_of p
  ↔ (path_characters p ≠ []
     ∧ pt = proposal "" (sorted (oset_of_list (path_characters p))))
    ∨ (char_in "/" p ∧ pt = proposal "/" [""]).
Proof.
  unfold proposals_of. rewrite list_elem_of_fmap. split.
  - intros ([d fs] & -> & [Hne ->]%elem_of_group_by_dir). simpl.
    destruct (decide (d = "")) as [->|Hroot].
    { left. by rewrite files_in_root_iter in *. }
    destruct (decide (d = "/")) as [->|Hslash].
    { right. destruct (files_in_slash_iter p) as [Hall Hin].
      split; [by apply Hin|]. by rewrite (oset_of_list_constant "" _ Hne Hall). }
    by rewrite files_in_other_iter in Hne.
  - intros [[Hne ->]|[Hin ->]].
    + exists ("", oset_of_list (path_characters p)). split; [done|].
      apply elem_of_group_by_dir. by rewrite files_in_root_iter.
    + exists ("/", [""]). split; [done|].
      destruct (files_in_slash_iter p) as [Hall Hne].
      apply elem_of_group_by_dir. split; [by apply Hne|].
      symmetry. apply oset_of_list_constant; [by apply Hne|done].
Qed.

(** X1. The proposals of discovery, exactly: with [tailor] on, a proposal is
    returned if and only if, for some candidate file that is not owned, it is
    the target in the root directory triggered by the sorted distinct
    characters of the path of that file, the slash left out, or the target in
    [/] triggered by the empty name, should the path have a slash. With
    [tailor] off nothing is returned. *)
Theorem find_putative_targets_proposals (toml_setup : TomlSetup)
    (files owned : list string) :
  ∃ pts,
    find_putative_targets toml_setup files owned = Ok pts
    ∧ ∀ pt,
        pt ∈ pts
        ↔ tailor toml_setup = true
          ∧ ∃ p, p ∈ files ∧ (p ∉ owned)
                 ∧ ((path_characters p ≠ []
                     ∧ pt = proposal "" (sorted (oset_of_list (path_characters p))))
                    ∨ (char_in "/" p ∧ pt = proposal "/" [""])).
Proof.
  unfold find_putative_targets. destruct (tailor toml_setup); simpl.
  - eexists. split; [apply find_putative_targets_over_Ok|]. intros pt.
    rewrite elem_of_PutativeTargets, list_elem_of_bind. split.
    + intros (p & Hpt%elem_of_proposals_of & [? ?]%unowned_spec). eauto.
    + intros (_ & p & Hin & Hnin & Hpt). exists p.
      split; [by apply elem_of_proposals_of|]. by apply unowned_spec.
  - exists []. split; [done|]. intros pt. split; [by intros ?%elem_of_nil|].
    by intros [[=] _].
Qed.

Lemma proposals_of_empty_iff (p : string) : proposals_of p = [] ↔ p = "".
Proof.
  split.
  - intros Hnil. destruct p as [|a p]; [done|]. exfalso.
    assert (∃ pt, pt ∈ proposals_of (String a p)) as [pt Hpt]; [|].
    { destruct (decide (a = "/"%char)) as [->|Hne].
      - exists (proposal "/" [""]). apply elem_of_proposals_of. right.
        split; [|done]. by exists "", p.
      - eexists. apply elem_of_proposals_of. left. split; [|done].
        unfold path_characters. cbn [Str.iter].
        by rewrite filter_cons_True by (by rewrite single_character_slash). }
    rewrite Hnil in Hpt. by apply elem_of_nil in Hpt.
  - by intros ->.
Qed.

(** X2. Discovery returns no proposal exactly when [tailor] is off or every
    candidate file is owned (or is the empty path): with [tailor] on, one
    candidate that is not owned is enough for a proposal. *)
Theorem find_putative_targets_empty_iff (toml_setup : TomlSetup)
    (files owned : list string) :
  find_putative_targets toml_setup files owned = Ok []
  ↔ tailor toml_setup = false ∨ ∀ p, p ∈ files → p ∈ owned ∨ p = "".
Proof.
  unfold find_putative_targets. destruct (tailor toml_setup); simpl.
  2: { split; [by left|done]. }
  rewrite find_putative_targets_over_Ok. split.
  - intros [= Hnil]. right. intros p Hp.
    destruct (decide (p ∈ owned)) as [?|Hnin]; [by left|]. right.
    apply proposals_of_empty_iff, elem_of_nil_inv. intros pt Hpt.
    assert (pt ∈ PutativeTargets
              (oset_difference (oset_of_list files) (oset_of_list owned)
               ≫= proposals_of)) as Hin.
    { apply elem_of_PutativeTargets, list_elem_of_bind. exists p.
      split; [done|]. by apply unowned_spec. }
    rewrite Hnil in Hin. by apply elem_of_nil in Hin.
  - intros [[=]|Hall]. f_equal. apply elem_of_nil_inv. intros pt.
    rewrite elem_of_PutativeTargets, list_elem_of_bind.
    intros (p & Hpt & [Hp Hnin]%unowned_spec).
    destruct (Hall p Hp) as [?| ->]; [done|]. by apply elem_of_nil in Hpt.
Qed.

Lemma find_putative_targets_same_unowned (toml_setup : TomlSetup)
    (files files' owned owned' : list string) :
  (∀ x, x ∈ files ∧ x ∉ owned ↔ x ∈ files' ∧ x ∉ owned') →
  find_putative_targets toml_setup files owned
  = find_putative_targets toml_setup files' owned'.
Proof.
  intros Hsame. unfold find_putative_targets.
  destruct (tailor toml_setup); simpl; [|done].
  apply find_putative_targets_over_Permutation, NoDup_Permutation.
  - apply NoDup_oset_difference, NoDup_oset_of_list.
  - apply NoDup_oset_difference, NoDup_oset_of_list.
  - intros x. by rewrite !unowned_spec.
Qed.

(** X3. Discovery only looks at the candidates that are not owned: it gives
    the same proposals for the candidates with the owned ones taken out and
    nothing owned, and owned files that are no candidates make no
    difference. *)
Theorem find_putative_targets_only_unowned (toml_setup : TomlSetup)
    (files owned : list string) :
  find_putative_targets toml_setup files owned
  = find_putative_targets toml_setup (list_difference files owned) []
  ∧ find_putative_targets toml_setup files owned
    = find_putative_targets toml_setup files (filter (λ o, o ∈ files) owned).
Proof.
  split; apply find_putative_targets_same_unowned; intros x.
  - rewrite list_elem_of_difference, elem_of_nil. tauto.
  - rewrite list_elem_of_filter. tauto.
Qed.

Section same_set_facts.
Context {A : Type} `{Lexico A} `{!EqDecision A}.
Context `{!StrictOrder (@lexico A _), !TrichotomyT (@lexico A _)}.
Implicit Types (l k : list A).

(** Sorting and dropping repetitions gives the same list for two lists with
    the same elements. *)
Lemma oset_sorted_same_set l k :
  same_set l k → oset_of_list (sorted l) = oset_of_list (sorted k).
Proof.
  intros Hlk. apply (StronglySorted_unique_strong lexico).
  - intros x y _ _ Hxy Hyx. destruct (strict_anti_symm _ _ Hxy Hyx).
  - apply oset_sorted_strict.
  - apply oset_sorted_strict.
  - apply NoDup_Permutation; [apply NoDup_oset_of_list..|].
    intros x. by rewrite !elem_of_oset_of_list, !elem_of_sorted.
Qed.
End same_set_facts.

Lemma PutativeTargets_same_set pts pts' :
  same_set pts pts' → PutativeTargets pts = PutativeTargets pts'.
Proof. apply oset_sorted_same_set. Qed.

(** X4. Discovery works file by file: the proposals for two collections of
    candidates taken together are the proposals for each, merged into one
    sorted collection without repetition. *)
Theorem find_putative_targets_app (toml_setup : TomlSetup)
    (files1 files2 owned : list string) :
  ∃ pts1 pts2,
    find_putative_targets toml_setup files1 owned = Ok pts1
    ∧ find_putative_targets toml_setup files2 owned = Ok pts2
    ∧ find_putative_targets toml_setup (files1 ++ files2) owned
      = Ok (PutativeTargets (pts1 ++ pts2)).
Proof.
  unfold find_putative_targets. destruct (tailor toml_setup); simpl.
  2: { by exists [], []. }
  rewrite !find_putative_targets_over_Ok. eexists _, _.
  split; [done|]. split; [done|]. f_equal.
  apply PutativeTargets_same_set. intros pt.
  rewrite elem_of_app, !elem_of_PutativeTargets, !list_elem_of_bind.
  setoid_rewrite unowned_spec. setoid_rewrite elem_of_app. split.
  - intros (p & Hpt & [Hp|Hp] & Hn); [left|right]; exists p; eauto.
  - intros [(p & Hpt & Hp & Hn)|(p & Hpt & Hp & Hn)]; exists p; eauto.
Qed.

(** ** The pyproject partitioner *)

Lemma pyproject_checker_same_set taplo (filepaths filepaths' : list string) :
  same_set filepaths filepaths' →
  sorted (pyproject_checker taplo filepaths)
  = sorted (pyproject_checker taplo filepaths').
Proof.
  intros Hsame. apply sorted_unique, NoDup_Permutation;
    [apply pyproject_checker_NoDup..|].
  intros f. by rewrite !pyproject_checker_spec, (Hsame f).
Qed.

(** X5. The partition of the pyproject files only depends on the set of
    input paths: neither their order nor repetitions among them show. *)
Theorem partition_pyprojects_same_set (taplo : Taplo)
    (request_files request_files' : list string) :
  same_set request_files request_files' →
  partition_pyprojects request_files taplo
  = partition_pyprojects request_files' taplo.
Proof.
  intros Hsame. unfold partition_pyprojects. destruct (skip taplo); [done|].
  by rewrite (pyproject_checker_same_set taplo _ _ Hsame).
Qed.

Lemma partition_pyprojects_same_set_witness :
  partition_pyprojects
    ["b/pyproject.toml"; "a.toml"; "pyproject.toml"] Taplo_default
  = partition_pyprojects
      ["pyproject.toml"; "a.toml"; "b/pyproject.toml"; "a.toml"] Taplo_default.
Proof.
  apply (partition_pyprojects_same_set Taplo_default
           ["b/pyproject.toml"; "a.toml"; "pyproject.toml"]
           ["pyproject.toml"; "a.toml"; "b/pyproject.toml"; "a.toml"]).
  intros x. rewrite !elem_of_cons, !elem_of_nil. tauto.
Defined.

(** X6. Partitioning is idempotent: the elements of the partition it
    returns, partitioned again, give that same partition. *)
Theorem partition_pyprojects_idempotent (taplo : Taplo)
    (request_files : list string) (p : Partition) :
  p ∈ partition_pyprojects request_files taplo →
  partition_pyprojects (elements p) taplo = [p].
Proof.
  unfold partition_pyprojects. destruct (skip taplo); [by intros ?%elem_of_nil|].
  intros ->%list_elem_of_singleton. unfold single_partition. simpl.
  do 2 f_equal. apply sorted_unique, NoDup_Permutation;
    [apply pyproject_checker_NoDup..|].
  intros f. rewrite pyproject_checker_spec, elem_of_sorted.
  rewrite pyproject_checker_spec. tauto.
Qed.

Lemma partition_pyprojects_idempotent_witness :
  partition_pyprojects ["b/pyproject.toml"; "pyproject.toml"] Taplo_default
  = [ {| elements := ["b/pyproject.toml"; "pyproject.toml"] |} ].
Proof.
  apply (partition_pyprojects_idempotent Taplo_default
           ["pyproject.toml"; "a.toml"; "b/pyproject.toml"]
           {| elements := ["b/pyproject.toml"; "pyproject.toml"] |}).
  vm_compute. left.
Defined.

(** X7. When [skip] is off and no input path contains [pyproject.toml], the
    partitioner still returns one partition, without elements; it returns
    that partition in no other case. *)
Theorem partition_pyprojects_empty_partition (taplo : Taplo)
    (request_files : list string) :
  partition_pyprojects request_files taplo = [ {| elements := [] |} ]
  ↔ skip taplo = false
    ∧ ∀ f, f ∈ request_files → Str.contains "pyproject.toml" f = false.
Proof.
  unfold partition_pyprojects, single_partition.
  destruct (skip taplo); [split; [done|by intros [[=] _]]|].
  split.
  - intros [= Hnil]. split; [done|]. intros f Hf.
    destruct (Str.contains "pyproject.toml" f) eqn:Hc; [|done].
    assert (f ∈ sorted (pyproject_checker taplo request_files)) as Hin.
    { apply elem_of_sorted. unfold pyproject_checker.
      apply list_elem_of_filter. by rewrite elem_of_oset_of_list. }
    rewrite Hnil in Hin. by apply elem_of_nil in Hin.
  - intros [_ Hnone]. do 2 f_equal. apply elem_of_nil_inv. intros f.
    rewrite elem_of_sorted. unfold pyproject_checker.
    rewrite list_elem_of_filter, elem_of_oset_of_list. intros [Hc Hf].
    by rewrite (Hnone f Hf) in Hc.
Qed.

(** ** The request for configuration files *)

(** X8. For directories that are not empty and do not end with a slash (as
    the directories of a snapshot are) the files the request checks are
    [.taplo.toml] and [taplo.toml] in the root and [d/.taplo.toml] and
    [d/taplo.toml] for each directory [d], each as often as [d] is listed;
    the request holds them in ascending order. *)
Theorem config_request_candidates (taplo : Taplo) (dirs : list string) :
  Forall (λ d, d ≠ "" ∧ Str.endswith "/" d = false) dirs →
  check_existence (config_request taplo dirs)
  ≡ₚ ".taplo.toml" :: ((λ d, d +:+ "/.taplo.toml") <$> dirs)
     ++ "taplo.toml" :: ((λ d, d +:+ "/taplo.toml") <$> dirs)
  ∧ StronglySorted py_le (check_existence (config_request taplo dirs)).
Proof.
  intros Hdirs. unfold config_request, ConfigFilesRequest_init.
  cbn [check_existence]. split; [|apply sorted_StronglySorted].
  rewrite sorted_Permutation.
  assert (∀ n, Str.startswith "/" n = false →
    (λ d, os_path.join d n) <$> dirs = (λ d, d +:+ "/" +:+ n) <$> dirs) as Hjoin.
  { intros n Hn. apply Forall_fmap_ext_1. eapply Forall_impl; [exact Hdirs|].
    intros d [Hd Hend]. by apply join_in_directory. }
  rewrite !fmap_cons, !Hjoin by done. done.
Qed.

Lemma config_request_candidates_witness :
  check_existence (config_request Taplo_default ["a"; "a/b"])
  ≡ₚ [ ".taplo.toml"; "a/.taplo.toml"; "a/b/.taplo.toml";
       "taplo.toml"; "a/taplo.toml"; "a/b/taplo.toml" ]
  ∧ StronglySorted py_le
      (check_existence (config_request Taplo_default ["a"; "a/b"])).
Proof.
  apply (config_request_candidates Taplo_default ["a"; "a/b"]).
  repeat constructor; done.
Defined.

(** ** The executable *)

(** X9. When [generate_exe] returns, its result is [./] followed by a name
    without a slash: the executable is looked for in the root of the
    sandbox, whatever the URL template. *)
Theorem generate_exe_in_sandbox_root (self : Taplo) (plat : Platform)
    (exe : string) :
  generate_exe self plat = Ok exe →
  ∃ name, exe = "./" +:+ name ∧ ¬ char_in "/" name.
Proof.
  unfold generate_exe. destruct (generate_url self plat) as [url|e]; [|done].
  simpl. intros [= <-]. eexists. split; [done|].
  destruct (rsplit1_last "/" url) as [Hseg _].
  destruct (removesuffix_spec ".gz" (last_item (Str.rsplit1 "/" url)))
    as [Heq|[_ ->]]; [|done].
  intros Hin. apply Hseg. rewrite Heq, char_in_app. by left.
Qed.

Lemma generate_exe_in_sandbox_root_witness :
  ∃ name, "./taplo-linux-aarch64" = "./" +:+ name ∧ ¬ char_in "/" name.
Proof.
  apply (generate_exe_in_sandbox_root Taplo_default linux_arm64). reflexivity.
Defined.

(** X10. When the URL ends with a segment [name.gz], the executable is
    [./name]: one [.gz] is taken off, also when [name] itself ends with
    [.gz] or is empty. *)
Theorem generate_exe_strips_one_gz (self : Taplo) (plat : Platform)
    (pre name : string) :
  generate_url self plat = Ok (pre +:+ String "/" (name +:+ ".gz")) →
  ¬ char_in "/" name →
  generate_exe self plat = Ok ("./" +:+ name).
Proof.
  intros Hurl Hname. unfold generate_exe. rewrite Hurl.
  unfold rbind, Str.rsplit1. rewrite rpartition_app.
  - unfold last_item. cbn [List.last]. by rewrite removesuffix_app.
  - rewrite char_in_app. intros [?|Hc]; [done|].
    apply contains_char in Hc. discriminate Hc.
Qed.

Lemma generate_exe_strips_one_gz_witness :
  generate_exe
    {| version := "1"; url_template := "https://example.org/{version}/taplo.gz.gz";
       url_platform_mapping := []; skip := false; args := [];
       config_discovery := true |} linux_x86_64
  = Ok "./taplo.gz".
Proof.
  apply (generate_exe_strips_one_gz _ linux_x86_64 "https://example.org/1" "taplo.gz").
  - reflexivity.
  - rewrite <-contains_char. vm_compute. discriminate.
Defined.

(** ** More on the two rules *)

Lemma endswith_spec (p s : string) :
  Str.endswith p s = true → ∃ pre, s = pre +:+ p.
Proof.
  induction s as [|a s IH]; rewrite ends_with_unfold, orb_true_iff.
  - intros [->%String.eqb_eq|?]; [by exists ""|done].
  - intros [->%String.eqb_eq|[pre ->]%IH]; [by exists ""|].
    by exists (String a pre).
Qed.

Lemma basename_app (pre n : string) :
  ¬ char_in "/" n → os_path.basename (pre +:+ String "/" n) = n.
Proof.
  intros Hn. unfold os_path.basename.
  change os_path.sep with "/"%char. by rewrite rpartition_app.
Qed.

Lemma basename_join (d n : string) :
  ¬ char_in "/" n → os_path.basename (os_path.join d n) = n.
Proof.
  intros Hn. unfold os_path.join.
  destruct (Str.startswith "/" n) eqn:Hs.
  { apply startswith_spec in Hs as [post ->]. destruct Hn. by exists "", post. }
  destruct (Str.is_empty d) eqn:Hd; simpl.
  { destruct d; [|done]. change ("" +:+ n) with n. unfold os_path.basename.
    change os_path.sep with "/"%char. by apply rpartition_None in Hn as ->. }
  destruct (Str.endswith "/" d) eqn:He.
  - apply endswith_spec in He as [pre ->]. rewrite append_assoc.
    by apply basename_app.
  - by apply basename_app.
Qed.

(** X11. Whatever directories it is given, the request asks for two files per
    directory and two for the root, and every file it asks for is named
    [.taplo.toml] or [taplo.toml]. *)
Theorem config_request_names (taplo : Taplo) (dirs : list string) :
  length (check_existence (config_request taplo dirs)) = 2 * (1 + length dirs)
  ∧ Forall (λ c, os_path.basename c = ".taplo.toml"
                 ∨ os_path.basename c = "taplo.toml")
           (check_existence (config_request taplo dirs)).
Proof.
  unfold config_request, ConfigFilesRequest_init. cbn [check_existence]. split.
  - rewrite (Permutation_length (sorted_Permutation _)).
    rewrite length_app, !length_fmap. simpl. lia.
  - apply Forall_forall. intros c. rewrite elem_of_sorted.
    intros [Hc|Hc]%elem_of_app;
      apply list_elem_of_fmap in Hc as (d & -> & _).
    + left. apply basename_join. rewrite <-contains_char. by vm_compute.
    + right. apply basename_join. rewrite <-contains_char. by vm_compute.
Qed.

Lemma elem_of_find_putative_targets toml_setup files owned pts pt :
  find_putative_targets toml_setup files owned = Ok pts →
  pt ∈ pts
  ↔ tailor toml_setup = true
    ∧ ∃ p, p ∈ files ∧ (p ∉ owned) ∧ pt ∈ proposals_of p.
Proof.
  unfold find_putative_targets. destruct (tailor toml_setup); simpl.
  - rewrite find_putative_targets_over_Ok. intros [= <-].
    rewrite elem_of_PutativeTargets, list_elem_of_bind.
    setoid_rewrite unowned_spec. split.
    + intros (p & Hpt & Hp & Hn). eauto 6.
    + intros (_ & p & Hp & Hn & Hpt). eauto.
  - intros [= <-]. split; [by intros ?%elem_of_nil|by intros [[=] _]].
Qed.

(** X12. Discovery is monotone: with fewer candidate files, or with more
    files owned, it proposes nothing that it did not propose before. *)
Theorem find_putative_targets_monotone (toml_setup : TomlSetup)
    (files files' owned owned' : list string) (pts pts' : list PutativeTarget) :
  files ⊆ files' → owned' ⊆ owned →
  find_putative_targets toml_setup files owned = Ok pts →
  find_putative_targets toml_setup files' owned' = Ok pts' →
  pts ⊆ pts'.
Proof.
  intros Hfiles Howned Hpts Hpts' pt.
  rewrite (elem_of_find_putative_targets _ _ _ _ _ Hpts).
  rewrite (elem_of_find_putative_targets _ _ _ _ _ Hpts').
  intros (Ht & p & Hp & Hn & Hpt). split; [done|]. exists p.
  split; [by apply Hfiles|]. split; [|done]. intros Hin. by apply Hn, Howned.
Qed.

Lemma find_putative_targets_monotone_witness :
  [ proposal "" ["."; "b"; "l"; "m"; "o"; "t"; "z"]; proposal "/" [""] ]
  ⊆ [ proposal "" ["."; "a"; "l"; "m"; "o"; "t"; "y"];
      proposal "" ["."; "b"; "l"; "m"; "o"; "t"; "z"];
      proposal "/" [""] ].
Proof.
  apply (find_putative_targets_monotone TomlSetup_default
           ["a/x.toml"; "b/z.toml"] ["a/x.toml"; "a/y.toml"; "b/z.toml"]
           ["a/x.toml"; "c.toml"] ["a/x.toml"]).
  - intros x. rewrite !elem_of_cons, !elem_of_nil. tauto.
  - intros x. rewrite !elem_of_cons, !elem_of_nil. tauto.
  - vm_compute. reflexivity.
  - vm_compute. reflexivity.
Defined.
